(** * Theme management of the portfolio site (assets/js/theme.js)

    A shallow embedding of the theme controller: the closure state
    [currentTheme], the [data-theme] attribute of the document root, the
    toggle buttons, [localStorage], the [prefers-color-scheme] media query and
    the events dispatched on [window].  JavaScript statements become
    computations in a small state-and-exception monad, so that [try]/[catch]
    and the order of the side effects are the ones of the source. *)

From stdpp Require Import gmap strings list fin_maps.

Open Scope string_scope.
Open Scope list_scope.

(** ** JavaScript values reaching the public API *)

(** [ThemeManager.setTheme] is reachable from any script, so its argument is
    an arbitrary JavaScript value.  Only the distinction between a primitive
    string and everything else matters to [Array.prototype.includes]. *)
Inductive JSValue : Type :=
| VUndefined
| VNull
| VBoolean (b : bool)
| VNumber (ieee754 : N)
| VBigInt (z : Z)
| VString (s : string)
| VSymbol (id : nat)
| VObject (ref : nat).

(** The exceptions the scripts can meet: those of the Web Storage API, and
    the [TypeError] of a method call on a value that has no such method. *)
Inductive Exn : Type :=
| SecurityError
| QuotaExceededError
| TypeError.

(** ** Theme constants *)

Definition THEME_KEY : string := "mms-theme-preference".

Module THEMES.
Definition SYSTEM : string := "system".
Definition LIGHT : string := "light".
Definition DARK : string := "dark".
End THEMES.

(** [Object.values(THEMES)], in property order. *)
Definition Object_values_THEMES : list string :=
  [THEMES.SYSTEM; THEMES.LIGHT; THEMES.DARK].

(** ** The browser state the script reads and writes *)

(** [localStorage]: a string-to-string map.  Touching it raises
    [SecurityError] when storage is blocked for the origin, and writing raises
    [QuotaExceededError] when no space is granted (private browsing). *)
Record Storage : Type := mkStorage {
  items : gmap string string;
  accessDenied : bool;
  quotaExceeded : bool
}.

(** The object returned by [window.matchMedia("(prefers-color-scheme: dark)")]. *)
Record MediaQueryList : Type := mkMediaQueryList {
  matches : bool;
  hasAddEventListener : bool;
  changeListeners : nat
}.

(** A [.theme-toggle] button: the [style.display] of each icon it contains
    ([None] when [querySelector] finds no such icon) and its [aria-label]. *)
Record ToggleButton : Type := mkToggleButton {
  sunIcon : option string;
  moonIcon : option string;
  systemIcon : option string;
  ariaLabel : option string
}.

(** One event dispatched on [window].  Listeners run synchronously inside
    [dispatchEvent]; [seenTheme] is the script's current mode at that moment
    (the variable [ThemeManager.getTheme()] reads, once [window.ThemeManager]
    is assigned) and [seenMarker] the root's [data-theme] at that moment. *)
Record Dispatch : Type := mkDispatch {
  evType : string;
  detailTheme : string;
  seenTheme : string;
  seenMarker : option string
}.

Record World : Type := mkWorld {
  localStorage : Storage;
  dataTheme : option string;
  currentTheme : string;
  toggleButtons : list ToggleButton;
  dispatched : list Dispatch;
  consoleWarnings : list (string * Exn);
  matchMedia : option MediaQueryList;
  clickListeners : nat
}.

(** ** Completions and the monad of statements *)

Inductive Completion (A : Type) : Type :=
| Normal (a : A)
| Throw (e : Exn).
Arguments Normal {A} a.
Arguments Throw {A} e.

Definition M (A : Type) : Type := World → Completion A * World.

#[global] Instance M_ret : MRet M := λ A a w, (Normal a, w).

#[global] Instance M_bind : MBind M := λ A B f m w,
  match m w with
  | (Normal a, w') => f a w'
  | (Throw e, w') => (Throw e, w')
  end.

(** [try { body } catch (e) { handler }] *)
Definition try_catch {A} (body : M A) (handler : Exn → M A) : M A := λ w,
  match body w with
  | (Normal a, w') => (Normal a, w')
  | (Throw e, w') => handler e w'
  end.

Definition get : M World := λ w, (Normal w, w).
Definition modify (f : World → World) : M unit := λ w, (Normal tt, f w).

(** The state a statement leaves behind. *)
Definition exec {A} (m : M A) (w : World) : World := (m w).2.

(** ** Field updates *)

Definition set_localStorage (s : Storage) (w : World) : World :=
  mkWorld s (dataTheme w) (currentTheme w) (toggleButtons w) (dispatched w)
          (consoleWarnings w) (matchMedia w) (clickListeners w).
Definition set_dataTheme (a : option string) (w : World) : World :=
  mkWorld (localStorage w) a (currentTheme w) (toggleButtons w) (dispatched w)
          (consoleWarnings w) (matchMedia w) (clickListeners w).
Definition set_currentTheme (t : string) (w : World) : World :=
  mkWorld (localStorage w) (dataTheme w) t (toggleButtons w) (dispatched w)
          (consoleWarnings w) (matchMedia w) (clickListeners w).
Definition set_toggleButtons (bs : list ToggleButton) (w : World) : World :=
  mkWorld (localStorage w) (dataTheme w) (currentTheme w) bs (dispatched w)
          (consoleWarnings w) (matchMedia w) (clickListeners w).
Definition set_dispatched (ds : list Dispatch) (w : World) : World :=
  mkWorld (localStorage w) (dataTheme w) (currentTheme w) (toggleButtons w) ds
          (consoleWarnings w) (matchMedia w) (clickListeners w).
Definition set_consoleWarnings (ws : list (string * Exn)) (w : World) : World :=
  mkWorld (localStorage w) (dataTheme w) (currentTheme w) (toggleButtons w)
          (dispatched w) ws (matchMedia w) (clickListeners w).
Definition set_matchMedia (mq : option MediaQueryList) (w : World) : World :=
  mkWorld (localStorage w) (dataTheme w) (currentTheme w) (toggleButtons w)
          (dispatched w) (consoleWarnings w) mq (clickListeners w).
Definition set_clickListeners (n : nat) (w : World) : World :=
  mkWorld (localStorage w) (dataTheme w) (currentTheme w) (toggleButtons w)
          (dispatched w) (consoleWarnings w) (matchMedia w) n.

(** ** Browser primitives *)

(** [localStorage.getItem(key)]: [None] is JavaScript's [null]. *)
Definition localStorage_getItem (key : string) : M (option string) := λ w,
  if accessDenied (localStorage w) then (Throw SecurityError, w)
  else (Normal (items (localStorage w) !! key), w).

(** [localStorage.setItem(key, value)] *)
Definition localStorage_setItem (key value : string) : M unit := λ w,
  let s := localStorage w in
  if accessDenied s then (Throw SecurityError, w)
  else if quotaExceeded s then (Throw QuotaExceededError, w)
  else (Normal tt,
        set_localStorage
          (mkStorage (<[key := value]> (items s)) (accessDenied s) (quotaExceeded s)) w).

(** [console.warn(msg, e)] *)
Definition console_warn (msg : string) (e : Exn) : M unit :=
  modify (λ w, set_consoleWarnings (consoleWarnings w ++ [(msg, e)]) w).

(** [a || b] on the result of [getItem]: [null] and the empty string are the
    falsy values a string-or-null can take. *)
Definition or_else (a : option string) (b : string) : string :=
  match a with
  | Some s => if String.eqb s "" then b else s
  | None => b
  end.

(** [root.removeAttribute("data-theme")] and [root.setAttribute("data-theme", v)] *)
Definition root_removeAttribute_dataTheme : M unit :=
  modify (set_dataTheme None).
Definition root_setAttribute_dataTheme (v : string) : M unit :=
  modify (set_dataTheme (Some v)).

(** [window.dispatchEvent(new CustomEvent(type, { detail: { theme } }))] *)
Definition window_dispatchEvent (type theme : string) : M unit :=
  modify (λ w,
    set_dispatched
      (dispatched w ++ [mkDispatch type theme (currentTheme w) (dataTheme w)]) w).

(** [Array.prototype.includes] on an array of strings: SameValueZero equates
    a string element only with an equal primitive string. *)
Definition sameValueZero_string (x : string) (v : JSValue) : bool :=
  match v with
  | VString s => String.eqb x s
  | _ => false
  end.
Definition Array_includes (xs : list string) (v : JSValue) : bool :=
  existsb (λ x, sameValueZero_string x v) xs.

(** ** The script *)

(** [getSavedTheme]: the saved preference, or ["system"] as default. *)
Definition getSavedTheme : M string :=
  try_catch
    (v ← localStorage_getItem THEME_KEY;
     mret (or_else v THEMES.SYSTEM))
    (λ e,
     console_warn "localStorage not available:" e;;
     mret THEMES.SYSTEM).

(** [saveTheme(theme)] *)
Definition saveTheme (theme : string) : M unit :=
  try_catch
    (localStorage_setItem THEME_KEY theme)
    (λ e, console_warn "Could not save theme preference:" e).

(** [getSystemTheme]: ["dark"] or ["light"], from the media query. *)
Definition getSystemTheme : M string :=
  w ← get;
  match matchMedia w with
  | Some mq => if matches mq then mret THEMES.DARK else mret THEMES.LIGHT
  | None => mret THEMES.LIGHT
  end.

(** The body of the [forEach] callback of [updateThemeToggleIcon], for one
    button; [systemPreference] is the result of [getSystemTheme()]. *)
Definition refreshToggleButton (current systemPreference : string)
    (button : ToggleButton) : ToggleButton :=
  match sunIcon button, moonIcon button with
  | Some _, Some _ =>
      let hidden := (λ _ : string, "none") <$> systemIcon button in
      let '(sun, moon, sys) :=
        if String.eqb current THEMES.SYSTEM then
          match systemIcon button with
          | Some _ => ("none", "none", Some "block")
          | None =>
              if String.eqb systemPreference THEMES.DARK
              then ("none", "block", hidden)
              else ("block", "none", hidden)
          end
        else if String.eqb current THEMES.DARK then ("none", "block", hidden)
        else ("block", "none", hidden) in
      let label :=
        if String.eqb current THEMES.SYSTEM
        then "Using system theme, click to use light theme"
        else if String.eqb current THEMES.LIGHT
        then "Using light theme, click to use dark theme"
        else "Using dark theme, click to use system theme" in
      mkToggleButton (Some sun) (Some moon) sys (Some label)
  | _, _ => button
  end.

(** [updateThemeToggleIcon] *)
Definition updateThemeToggleIcon : M unit :=
  systemPreference ← getSystemTheme;
  modify (λ w,
    set_toggleButtons
      (refreshToggleButton (currentTheme w) systemPreference <$> toggleButtons w) w).

(** [applyTheme(theme)] *)
Definition applyTheme (theme : string) : M unit :=
  (if String.eqb theme THEMES.SYSTEM
   then root_removeAttribute_dataTheme
   else root_setAttribute_dataTheme theme);;
  modify (set_currentTheme theme);;
  updateThemeToggleIcon;;
  window_dispatchEvent "themeChange" theme.

(** [cycleTheme]: system -> light -> dark -> system *)
Definition cycleTheme : M unit :=
  w ← get;
  let nextTheme :=
    if String.eqb (currentTheme w) THEMES.SYSTEM then THEMES.LIGHT
    else if String.eqb (currentTheme w) THEMES.LIGHT then THEMES.DARK
    else if String.eqb (currentTheme w) THEMES.DARK then THEMES.SYSTEM
    else THEMES.SYSTEM in
  saveTheme nextTheme;;
  applyTheme nextTheme.

(** The listener [initTheme] attaches to the media query's [change] event. *)
Definition onSystemThemeChange : M unit :=
  w ← get;
  if String.eqb (currentTheme w) THEMES.SYSTEM
  then applyTheme THEMES.SYSTEM
  else mret tt.

(** The target of a [click] event that reaches the document: an element, for
    which [closest(".theme-toggle")] finds a button or not, or a node that is
    not an element (the document itself, for a click dispatched on it), which
    has no [closest] method. *)
Inductive ClickTarget : Type :=
| NotAnElement
| AnElement (insideToggle : bool).

(** The listener [initTheme] attaches to the document's [click] event:
    calling [e.target.closest] throws when the target has no such method. *)
Definition onDocumentClick (target : ClickTarget) : M unit :=
  match target with
  | NotAnElement => λ w, (Throw TypeError, w)
  | AnElement insideToggle => if insideToggle then cycleTheme else mret tt
  end.

(** [initTheme] *)
Definition initTheme : M unit :=
  savedTheme ← getSavedTheme;
  applyTheme savedTheme;;
  w ← get;
  match matchMedia w with
  | Some mediaQuery =>
      if hasAddEventListener mediaQuery
      then modify (set_matchMedia
                     (Some (mkMediaQueryList (matches mediaQuery)
                                             (hasAddEventListener mediaQuery)
                                             (S (changeListeners mediaQuery)))))
      else mret tt
  | None => mret tt
  end;;
  modify (λ w, set_clickListeners (S (clickListeners w)) w).

(** [window.ThemeManager] *)
Module ThemeManager.
Definition getTheme (w : World) : string := currentTheme w.
Definition setTheme (theme : JSValue) : M unit :=
  if Array_includes Object_values_THEMES theme then
    match theme with
    | VString s => saveTheme s;; applyTheme s
    | _ => mret tt
    end
  else mret tt.
Definition cycleTheme : M unit := cycleTheme.
End ThemeManager.

(** ** The environment's side *)

(** Running the same listener [n] times, once per registration. *)
Fixpoint times (n : nat) (listener : M unit) : M unit :=
  match n with
  | O => mret tt
  | S k => listener;; times k listener
  end.

(** The OS appearance signal changes to [prefersDark]: the media query's
    [matches] is updated and its [change] listeners run. *)
Definition osAppearanceChange (prefersDark : bool) : M unit :=
  w ← get;
  match matchMedia w with
  | Some mq =>
      modify (set_matchMedia
                (Some (mkMediaQueryList prefersDark (hasAddEventListener mq)
                                        (changeListeners mq))));;
      times (changeListeners mq) onSystemThemeChange
  | None => mret tt
  end.

(** The state in which the script starts in a page: [currentTheme] holds its
    initialiser and nothing has been dispatched, logged or registered. *)
Definition freshSession (store : Storage) (marker : option string)
    (buttons : list ToggleButton) (mq : option MediaQueryList) : World :=
  mkWorld store marker THEMES.SYSTEM buttons [] [] mq 0.

(** The three mode names. *)
Definition validMode (m : string) : Prop :=
  m = THEMES.SYSTEM ∨ m = THEMES.LIGHT ∨ m = THEMES.DARK.

(** An argument of [setTheme] that is none of the three mode names. *)
Definition invalidInput (v : JSValue) : Prop :=
  v ≠ VString THEMES.SYSTEM ∧ v ≠ VString THEMES.LIGHT ∧ v ≠ VString THEMES.DARK.

(** A store that neither refuses access nor is out of quota. *)
Definition functional (s : Storage) : Prop :=
  accessDenied s = false ∧ quotaExceeded s = false.

(** ** Everything that can happen to the page after startup *)

(** A click that reaches the document: each [click] listener registered by
    [initTheme] runs, in registration order.  The completion tells whether a
    listener threw; a listener that throws has changed nothing. *)
Definition documentClick (target : ClickTarget) : M unit :=
  w ← get;
  times (clickListeners w) (onDocumentClick target).

(** What scripts, the user and the OS can do to the controller. *)
Inductive Action : Type :=
| CallSetTheme (theme : JSValue)
| CallCycleTheme
| ClickAt (target : ClickTarget)
| OsChange (prefersDark : bool).

Definition perform (a : Action) : M unit :=
  match a with
  | CallSetTheme theme => ThemeManager.setTheme theme
  | CallCycleTheme => ThemeManager.cycleTheme
  | ClickAt target => documentClick target
  | OsChange prefersDark => osAppearanceChange prefersDark
  end.

(** Each action runs in a task of its own: an exception that escapes it is
    reported by the browser and does not keep the next task from running. *)
Definition asTask (m : M unit) : M unit :=
  try_catch m (λ _, mret tt).

Fixpoint performAll (acts : list Action) : M unit :=
  match acts with
  | [] => mret tt
  | a :: rest => asTask (perform a);; performAll rest
  end.

(** The [style.display] values of the icons a button has, sun first. *)
Definition iconDisplays (b : ToggleButton) : list string :=
  omap id [sunIcon b; moonIcon b; systemIcon b].

(** The root's marker is the one [applyTheme] sets for the current mode. *)
Definition markerAgrees (w : World) : Prop :=
  dataTheme w =
  if String.eqb (currentTheme w) THEMES.SYSTEM then None else Some (currentTheme w).

(** A dispatched event is a [themeChange] whose detail is the mode and the
    marker its listeners observe. *)
Definition eventAgrees (ev : Dispatch) : Prop :=
  evType ev = "themeChange" ∧ seenTheme ev = detailTheme ev ∧
  seenMarker ev =
    if String.eqb (detailTheme ev) THEMES.SYSTEM then None else Some (detailTheme ev).

(** A statement that completes normally and keeps [P]. *)
Definition keeps (P : World → Prop) (m : M unit) : Prop :=
  ∀ w, P w → m w = (Normal tt, exec m w) ∧ P (exec m w).

(** * The contact form of the main script

    [ContactForm.validate] and [ContactForm.isValidEmail].  A JavaScript
    string is the list of its UTF-16 code units; the form is what [validate]
    reads and writes of it: which field names [querySelector] finds, the
    [.form-error] spans inside the form, oldest first, and the fields carrying
    [aria-invalid]. *)

Module ContactForm.

(** ECMAScript's white space and line terminators: the class [\s] of regular
    expressions, and what [String.prototype.trim] strips. *)
Definition isWhiteSpace (c : N) : bool :=
  match c with
  | 9 | 10 | 11 | 12 | 13 | 32 | 160 | 5760
  | 8232 | 8233 | 8239 | 8287 | 12288 | 65279 => true
  | _ => (8192 <=? c) && (c <=? 8202)
  end%N.

Fixpoint trimStart (s : list N) : list N :=
  match s with
  | c :: rest => if isWhiteSpace c then trimStart rest else s
  | [] => []
  end.

(** [s.trim()] *)
Definition trim (s : list N) : list N :=
  reverse (trimStart (reverse (trimStart s))).

(** The regular expressions the script uses are anchored sequences of
    character classes, each taken once or repeated with [+]. *)
Inductive Atom : Type :=
| One (class : N → bool)
| OneOrMore (class : N → bool).

(** [/^atoms$/.test(s)]: a [+] takes as many code units as it can and gives
    them back one by one while the rest fails to match. *)
Fixpoint matchAtoms (atoms : list Atom) (s : list N) {struct atoms} : bool :=
  match atoms with
  | [] => match s with [] => true | _ :: _ => false end
  | One class :: rest =>
      match s with
      | c :: s' => class c && matchAtoms rest s'
      | [] => false
      end
  | OneOrMore class :: rest =>
      (fix more (s : list N) : bool :=
         match s with
         | c :: s' => class c && (more s' || matchAtoms rest s')
         | [] => false
         end) s
  end.

(** [[^\s@]] *)
Definition notSpaceOrAt (c : N) : bool :=
  negb (isWhiteSpace c || (c =? 64)%N).

(** [/^[^\s@]+@[^\s@]+\.[^\s@]+$/] *)
Definition emailPattern : list Atom :=
  [OneOrMore notSpaceOrAt; One (N.eqb 64); OneOrMore notSpaceOrAt;
   One (N.eqb 46); OneOrMore notSpaceOrAt].

(** [isValidEmail(email)] *)
Definition isValidEmail (email : list N) : bool :=
  matchAtoms emailPattern email.

Record Form : Type := mkForm {
  fieldNames : gset string;
  errorSpans : list (string * string);
  ariaInvalid : gset string
}.

(** [showError(fieldName, message)], on the form [this.form] refers to. *)
Definition showError (fieldName message : string) (form : Form) : Form :=
  if bool_decide (fieldName ∈ fieldNames form)
  then mkForm (fieldNames form)
              (errorSpans form ++ [(fieldName, message)])
              ({[fieldName]} ∪ ariaInvalid form)
  else form.

(** [!v || v.trim() === ""] for a property [v] of the form data; [None] is
    [undefined]. *)
Definition missingOrBlank (v : option (list N)) : bool :=
  match v with
  | None | Some [] => true
  | Some s => bool_decide (trim s = [])
  end.

(** [!v || !this.isValidEmail(v)] *)
Definition missingOrNotEmail (v : option (list N)) : bool :=
  match v with
  | None | Some [] => true
  | Some s => negb (isValidEmail s)
  end.

(** [validate(data)]: its completion and what it leaves of [this.form],
    which is [null] ([None]) until [init] has found [#contact-form].  The
    first statement reads [this.form.querySelectorAll], which throws while
    [this.form] is [null]. *)
Definition validate (data : gmap string (list N)) (form : option Form)
    : Completion bool * option Form :=
  match form with
  | None => (Throw TypeError, None)
  | Some form =>
      let isValid := true in
      let form := mkForm (fieldNames form) [] (ariaInvalid form) in
      let '(isValid, form) :=
        if missingOrBlank (data !! "name")
        then (false, showError "name" "Name is required" form)
        else (isValid, form) in
      let '(isValid, form) :=
        if missingOrNotEmail (data !! "email")
        then (false, showError "email" "Valid email is required" form)
        else (isValid, form) in
      let '(isValid, form) :=
        if missingOrBlank (data !! "message")
        then (false, showError "message" "Message is required" form)
        else (isValid, form) in
      (Normal isValid, Some form)
  end.

(** What a sequence of atoms matches. *)
Fixpoint denotes (atoms : list Atom) (s : list N) : Prop :=
  match atoms with
  | [] => s = []
  | One class :: rest =>
      ∃ c s', s = c :: s' ∧ class c = true ∧ denotes rest s'
  | OneOrMore class :: rest =>
      ∃ a b, s = a ++ b ∧ a ≠ [] ∧ Forall (λ c, class c = true) a ∧
             denotes rest b
  end.

(** The code units of an ASCII literal. *)
Definition units (s : string) : list N :=
  (λ a, N.of_nat (Ascii.nat_of_ascii a)) <$> String.list_ascii_of_string s.

End ContactForm.

(** * The mobile navigation of the main script

    The [MobileNav] object: its fields [toggle], [nav] and [isOpen], and what
    its methods touch of the page: the class list of the [.mobile-nav]
    element, the [aria-expanded] attribute of the [.mobile-menu-toggle]
    button and [document.body.style.overflow]. *)

Module MobileNav.

Inductive Outcome : Type :=
| Returned
| ThrewTypeError.

Record State : Type := mkState {
  pageToggle : option (option string);
  pageNav : option (gset string);
  bodyOverflow : string;
  toggle : bool;
  nav : bool;
  isOpen : bool;
  listeners : nat
}.

Definition Method : Type := State → Outcome * State.

Definition andThen (m k : Method) : Method := λ st,
  match m st with
  | (Returned, st') => k st'
  | (ThrewTypeError, st') => (ThrewTypeError, st')
  end.

(** [this.isOpen = b] *)
Definition set_isOpen (b : bool) : Method := λ st,
  (Returned,
   mkState (pageToggle st) (pageNav st) (bodyOverflow st) (toggle st) (nav st)
           b (listeners st)).

(** [this.nav.classList.add(c)] and [this.nav.classList.remove(c)]: reading
    [classList] of [null] throws. *)
Definition nav_classList (update : gset string → gset string) : Method := λ st,
  if nav st then
    (Returned,
     mkState (pageToggle st) (update <$> pageNav st) (bodyOverflow st)
             (toggle st) (nav st) (isOpen st) (listeners st))
  else (ThrewTypeError, st).

(** [this.toggle.setAttribute("aria-expanded", v)] *)
Definition toggle_setAriaExpanded (v : string) : Method := λ st,
  if toggle st then
    (Returned,
     mkState ((λ _, Some v) <$> pageToggle st) (pageNav st) (bodyOverflow st)
             (toggle st) (nav st) (isOpen st) (listeners st))
  else (ThrewTypeError, st).

(** [document.body.style.overflow = v] *)
Definition set_bodyOverflow (v : string) : Method := λ st,
  (Returned,
   mkState (pageToggle st) (pageNav st) v (toggle st) (nav st) (isOpen st)
           (listeners st)).

(** [openMenu()] *)
Definition openMenu : Method :=
  andThen (set_isOpen true)
  (andThen (nav_classList (λ cl, {["mobile-nav--open"]} ∪ cl))
  (andThen (toggle_setAriaExpanded "true")
           (set_bodyOverflow "hidden"))).

(** [closeMenu()] *)
Definition closeMenu : Method :=
  andThen (set_isOpen false)
  (andThen (nav_classList (λ cl, cl ∖ {["mobile-nav--open"]}))
  (andThen (toggle_setAriaExpanded "false")
           (set_bodyOverflow ""))).

(** [toggleMenu()] *)
Definition toggleMenu : Method := λ st,
  if isOpen st then closeMenu st else openMenu st.

(** [init()]: looks the two elements up and, when both exist, registers the
    listeners. *)
Definition init : Method := λ st,
  let found_toggle := bool_decide (is_Some (pageToggle st)) in
  let found_nav := bool_decide (is_Some (pageNav st)) in
  let st := mkState (pageToggle st) (pageNav st) (bodyOverflow st)
                    found_toggle found_nav (isOpen st) (listeners st) in
  if negb found_toggle || negb found_nav then (Returned, st)
  else (Returned,
        mkState (pageToggle st) (pageNav st) (bodyOverflow st)
                (toggle st) (nav st) (isOpen st) (S (listeners st))).

(** The listeners of [init], by the event that runs them. *)
Inductive Event : Type :=
| ToggleClicked
| LinkClicked
| KeyDown (key : string)
| DocumentClicked (navContainsTarget toggleContainsTarget : bool).

Definition listener (e : Event) : Method :=
  match e with
  | ToggleClicked => toggleMenu
  | LinkClicked => closeMenu
  | KeyDown key => λ st,
      if String.eqb key "Escape" && isOpen st then closeMenu st
      else (Returned, st)
  | DocumentClicked navContainsTarget toggleContainsTarget => λ st,
      if isOpen st && negb navContainsTarget && negb toggleContainsTarget
      then closeMenu st
      else (Returned, st)
  end.

Fixpoint repeatedly (n : nat) (m : Method) : Method :=
  match n with
  | O => λ st, (Returned, st)
  | S k => andThen m (repeatedly k m)
  end.

(** An event reaches every copy of its listener that [init] registered. *)
Definition deliver (e : Event) : Method := λ st,
  repeatedly (listeners st) (listener e) st.

Fixpoint deliverAll (es : list Event) : Method :=
  match es with
  | [] => λ st, (Returned, st)
  | e :: rest => andThen (deliver e) (deliverAll rest)
  end.

(** The object and the page when the script is loaded: nothing looked up,
    the menu closed, no listener registered. *)
Definition pageLoad (pageToggle : option (option string))
    (pageNav : option (gset string)) (bodyOverflow : string) : State :=
  mkState pageToggle pageNav bodyOverflow false false false 0.

(** [init] has found both elements. *)
Definition ready (st : State) : Prop :=
  toggle st = true ∧ nav st = true ∧
  is_Some (pageToggle st) ∧ is_Some (pageNav st).

(** The class, the attribute and the scroll lock all say what [isOpen]
    says. *)
Definition agrees (st : State) : Prop :=
  (∃ cl, pageNav st = Some cl ∧ ("mobile-nav--open" ∈ cl ↔ isOpen st = true)) ∧
  pageToggle st = Some (Some (if isOpen st then "true" else "false")) ∧
  bodyOverflow st = (if isOpen st then "hidden" else "").

(** What the listeners leave of a ready menu that started as [st0]: it is
    still ready, with as many listeners, and either nothing changed or the
    page agrees with [isOpen]. *)
Definition settled (st0 st : State) : Prop :=
  ready st ∧ listeners st = listeners st0 ∧ (st = st0 ∨ agrees st).

End MobileNav.

(** * The active navigation link of the main script *)

Module ActiveNav.

(** [s.split(sep)] for a one-unit separator: the pieces between the
    separators, an empty string giving one empty piece. *)
Fixpoint split (sep : N) (s : list N) : list (list N) :=
  match s with
  | [] => [[]]
  | c :: rest =>
      if (c =? sep)%N then [] :: split sep rest
      else match split sep rest with
           | piece :: pieces => (c :: piece) :: pieces
           | [] => [[c]]
           end
  end.

(** [a || b] where [a] is a string or [undefined]. *)
Definition or_else (a : option (list N)) (b : list N) : list N :=
  match a with
  | Some (c :: s) => c :: s
  | Some [] | None => b
  end.

(** [window.location.pathname.split("/").pop() || "index.html"] *)
Definition currentPage (pathname : list N) : list N :=
  or_else (last (split 47 pathname)) (ContactForm.units "index.html").

(** A [.nav__link] or [.mobile-nav__link] element: its [href] attribute
    ([None] when it has none) and its class list. *)
Record Link : Type := mkLink {
  href : option (list N);
  classList : gset string
}.

Definition sameString (a : option (list N)) (b : list N) : bool :=
  bool_decide (a = Some b).

(** The body of the [forEach] callback of [init], for one link. *)
Definition highlight (currentPage : list N) (link : Link) : Link :=
  if sameString (href link) currentPage ||
     (bool_decide (currentPage = []) &&
      sameString (href link) (ContactForm.units "index.html"))
  then mkLink (href link)
              ({["nav__link--active"; "mobile-nav__link--active"]} ∪ classList link)
  else link.

(** [init()] on a page at [pathname] with these links. *)
Definition init (pathname : list N) (links : list Link) : list Link :=
  highlight (currentPage pathname) <$> links.

End ActiveNav.

(** ** Running statements *)

Lemma bind_normal {A B} (m : M A) (f : A → M B) (w w' : World) (a : A) :
  m w = (Normal a, w') → (m ≫= f) w = f a w'.
Proof. intros H. unfold mbind, M_bind. by rewrite H. Qed.

Lemma exec_normal {A} (m : M A) (w w' : World) (a : A) :
  m w = (Normal a, w') → exec m w = w'.
Proof. intros H. unfold exec. by rewrite H. Qed.

Lemma not_validMode_eqb (m : string) :
  ¬ validMode m →
  String.eqb m THEMES.SYSTEM = false ∧ String.eqb m THEMES.LIGHT = false ∧
  String.eqb m THEMES.DARK = false.
Proof.
  intros H. split_and!; apply String.eqb_neq; intros ->; apply H;
    unfold validMode; auto.
Qed.

(** ** [applyTheme] *)

(** [applyTheme] in closed form: it always completes normally, and every
    field of the state it leaves is given by [theme] and the state before. *)
Lemma applyTheme_eq (theme : string) (w : World) :
  applyTheme theme w =
  (Normal tt,
   let marker := if String.eqb theme THEMES.SYSTEM then None else Some theme in
   mkWorld (localStorage w) marker theme
     (refreshToggleButton theme
        (match matchMedia w with
         | Some mq => if matches mq then THEMES.DARK else THEMES.LIGHT
         | None => THEMES.LIGHT
         end) <$> toggleButtons w)
     (dispatched w ++ [mkDispatch "themeChange" theme theme marker])
     (consoleWarnings w) (matchMedia w) (clickListeners w)).
Proof.
  unfold applyTheme.
  destruct w as [st mk cur bs ds cw [[[] lis n]|] cl];
    destruct (String.eqb theme THEMES.SYSTEM); reflexivity.
Qed.

Lemma applyTheme_currentTheme (theme : string) (w : World) :
  currentTheme (exec (applyTheme theme) w) = theme.
Proof. unfold exec. by rewrite applyTheme_eq. Qed.

Lemma applyTheme_dataTheme (theme : string) (w : World) :
  dataTheme (exec (applyTheme theme) w) =
  if String.eqb theme THEMES.SYSTEM then None else Some theme.
Proof. unfold exec. by rewrite applyTheme_eq. Qed.

Lemma applyTheme_localStorage (theme : string) (w : World) :
  localStorage (exec (applyTheme theme) w) = localStorage w.
Proof. unfold exec. by rewrite applyTheme_eq. Qed.

(** ** [saveTheme] and [getSavedTheme] *)

(** [saveTheme] always completes normally and touches nothing but the store
    and the console. *)
Lemma saveTheme_frame (theme : string) (w : World) :
  ∃ w', saveTheme theme w = (Normal tt, w') ∧
        dataTheme w' = dataTheme w ∧ currentTheme w' = currentTheme w ∧
        toggleButtons w' = toggleButtons w ∧ dispatched w' = dispatched w ∧
        matchMedia w' = matchMedia w ∧ clickListeners w' = clickListeners w.
Proof.
  destruct w as [[it [] []] mk cur bs ds cw mq cl];
    (eexists; split; [reflexivity | by split_and!]).
Qed.

Lemma saveTheme_functional (theme : string) (w : World) :
  functional (localStorage w) →
  localStorage (exec (saveTheme theme) w) =
  mkStorage (<[THEME_KEY := theme]> (items (localStorage w))) false false.
Proof.
  destruct w as [[it ad qe] mk cur bs ds cw mq cl]. intros [Ha Hq].
  simpl in Ha, Hq. subst. reflexivity.
Qed.

Lemma saveTheme_failing (theme : string) (w : World) (e : Exn) :
  (localStorage_setItem THEME_KEY theme w).1 = Throw e →
  localStorage (exec (saveTheme theme) w) = localStorage w.
Proof.
  destruct w as [[it [] []] mk cur bs ds cw mq cl]; simpl; intros H;
    try reflexivity; discriminate.
Qed.

(** [getSavedTheme] always completes normally, with the stored value when it
    is readable and non-empty and with ["system"] otherwise. *)
Lemma getSavedTheme_frame (w : World) :
  ∃ w', getSavedTheme w =
          (Normal (if accessDenied (localStorage w) then THEMES.SYSTEM
                   else or_else (items (localStorage w) !! THEME_KEY) THEMES.SYSTEM),
           w') ∧
        localStorage w' = localStorage w ∧ matchMedia w' = matchMedia w ∧
        dispatched w' = dispatched w.
Proof.
  destruct w as [[it [] qe] mk cur bs ds cw mq cl];
    (eexists; split; [reflexivity | by split_and!]).
Qed.

(** ** Sequences of the script *)

Lemma save_then_apply (theme : string) (w : World) :
  ∃ w1, saveTheme theme w = (Normal tt, w1) ∧
        (saveTheme theme;; applyTheme theme) w = applyTheme theme w1 ∧
        dispatched w1 = dispatched w ∧ matchMedia w1 = matchMedia w.
Proof.
  destruct (saveTheme_frame theme w) as (w1 & Hs & _ & _ & _ & Hd & Hm & _).
  exists w1. split_and!; try done.
  exact (bind_normal (saveTheme theme) (λ _, applyTheme theme) w w1 tt Hs).
Qed.

Lemma save_then_apply_currentTheme (theme : string) (w : World) :
  (saveTheme theme;; applyTheme theme) w =
    (Normal tt, exec (saveTheme theme;; applyTheme theme) w) ∧
  currentTheme (exec (saveTheme theme;; applyTheme theme) w) = theme ∧
  dataTheme (exec (saveTheme theme;; applyTheme theme) w) =
    (if String.eqb theme THEMES.SYSTEM then None else Some theme) ∧
  dispatched (exec (saveTheme theme;; applyTheme theme) w) =
    dispatched w ++
    [mkDispatch "themeChange" theme theme
       (if String.eqb theme THEMES.SYSTEM then None else Some theme)] ∧
  localStorage (exec (saveTheme theme;; applyTheme theme) w) =
    localStorage (exec (saveTheme theme) w).
Proof.
  destruct (save_then_apply theme w) as (w1 & Hs & Hseq & Hd & _).
  unfold exec at 1 2 3 4 5. rewrite Hseq, applyTheme_eq. simpl.
  rewrite Hd, (exec_normal _ _ _ _ Hs). done.
Qed.

Lemma cycleTheme_unfold (w : World) :
  cycleTheme w =
  (let nextTheme :=
     if String.eqb (currentTheme w) THEMES.SYSTEM then THEMES.LIGHT
     else if String.eqb (currentTheme w) THEMES.LIGHT then THEMES.DARK
     else if String.eqb (currentTheme w) THEMES.DARK then THEMES.SYSTEM
     else THEMES.SYSTEM in
   (saveTheme nextTheme;; applyTheme nextTheme) w).
Proof. reflexivity. Qed.

Lemma initTheme_unfold (w : World) :
  ∃ w1 w2,
    getSavedTheme w =
      (Normal (if accessDenied (localStorage w) then THEMES.SYSTEM
               else or_else (items (localStorage w) !! THEME_KEY) THEMES.SYSTEM), w1) ∧
    initTheme w = (Normal tt, w2) ∧
    currentTheme w2 = currentTheme (exec (applyTheme
      (if accessDenied (localStorage w) then THEMES.SYSTEM
       else or_else (items (localStorage w) !! THEME_KEY) THEMES.SYSTEM)) w1) ∧
    dataTheme w2 = dataTheme (exec (applyTheme
      (if accessDenied (localStorage w) then THEMES.SYSTEM
       else or_else (items (localStorage w) !! THEME_KEY) THEMES.SYSTEM)) w1).
Proof.
  destruct (getSavedTheme_frame w) as (w1 & Hg & _).
  exists w1. unfold initTheme. rewrite (bind_normal _ _ _ _ _ Hg).
  set (t := if accessDenied (localStorage w) then _ else _) in *.
  unfold exec. unfold mbind at 1, M_bind at 1. rewrite applyTheme_eq.
  cbv beta iota. unfold get. unfold mbind at 1, M_bind at 1. cbv beta iota.
  simpl matchMedia.
  destruct (matchMedia w1) as [[mt [] n]|]; eexists; (split; [done|]);
    (split; [reflexivity | by split]).
Qed.

Lemma initTheme_result (w : World) :
  let saved := if accessDenied (localStorage w) then THEMES.SYSTEM
               else or_else (items (localStorage w) !! THEME_KEY) THEMES.SYSTEM in
  (initTheme w).1 = Normal tt ∧
  currentTheme (exec initTheme w) = saved ∧
  dataTheme (exec initTheme w) =
    (if String.eqb saved THEMES.SYSTEM then None else Some saved).
Proof.
  destruct (initTheme_unfold w) as (w1 & w2 & _ & Hi & Hc & Hd).
  unfold exec at 1 2. rewrite Hi. simpl.
  rewrite Hc, Hd, applyTheme_currentTheme, applyTheme_dataTheme. done.
Qed.

(** With nothing stored under the key, the startup falls back to ["system"]
    and clears the marker. *)
Lemma initTheme_missing_value (w : World) :
  items (localStorage w) !! THEME_KEY = None →
  (initTheme w).1 = Normal tt ∧
  ThemeManager.getTheme (exec initTheme w) = THEMES.SYSTEM ∧
  dataTheme (exec initTheme w) = None.
Proof.
  intros Hnone. destruct (initTheme_result w) as (Hr & Hc & Hd).
  rewrite Hnone in Hc, Hd. unfold ThemeManager.getTheme.
  destruct (accessDenied (localStorage w)); simpl in *; done.
Qed.

(** A stored mode name is restored, with its marker. *)
Lemma initTheme_stored_dark (w : World) :
  accessDenied (localStorage w) = false →
  items (localStorage w) !! THEME_KEY = Some THEMES.DARK →
  ThemeManager.getTheme (exec initTheme w) = THEMES.DARK ∧
  dataTheme (exec initTheme w) = Some THEMES.DARK.
Proof.
  intros Ha Hs. destruct (initTheme_result w) as (_ & Hc & Hd).
  rewrite Ha, Hs in Hc, Hd. done.
Qed.

(** ** [ThemeManager.setTheme] *)

Lemma setTheme_valid (m : string) :
  validMode m →
  ThemeManager.setTheme (VString m) = (saveTheme m;; applyTheme m).
Proof. intros [-> | [-> | ->]]; reflexivity. Qed.

Lemma Array_includes_invalid (v : JSValue) :
  invalidInput v → Array_includes Object_values_THEMES v = false.
Proof.
  intros (Hs & Hl & Hd). destruct v; try reflexivity.
  change (Array_includes Object_values_THEMES (VString s))
    with (String.eqb THEMES.SYSTEM s ||
          (String.eqb THEMES.LIGHT s || (String.eqb THEMES.DARK s || false))).
  rewrite !orb_false_iff. split_and!; try done;
    apply String.eqb_neq; congruence.
Qed.

Lemma setTheme_invalid (v : JSValue) (w : World) :
  invalidInput v → ThemeManager.setTheme v w = (Normal tt, w).
Proof.
  intros H. unfold ThemeManager.setTheme.
  by rewrite (Array_includes_invalid v H).
Qed.

(** No public operation lets an exception escape. *)
Lemma setTheme_never_throws (v : JSValue) (w : World) :
  (ThemeManager.setTheme v w).1 = Normal tt.
Proof.
  unfold ThemeManager.setTheme.
  destruct (Array_includes Object_values_THEMES v); [|done].
  destruct v; try done.
  by destruct (save_then_apply_currentTheme s w) as (-> & _).
Qed.

Lemma cycleTheme_never_throws (w : World) :
  (ThemeManager.cycleTheme w).1 = Normal tt.
Proof.
  unfold ThemeManager.cycleTheme. rewrite cycleTheme_unfold. cbv zeta.
  by match goal with
     | |- ((saveTheme ?t;; _) _).1 = _ =>
         destruct (save_then_apply_currentTheme t w) as (-> & _)
     end.
Qed.

(** One step of the cycle, for each current mode. *)
Lemma cycleTheme_step (w : World) :
  let w' := exec ThemeManager.cycleTheme w in
  (currentTheme w = THEMES.SYSTEM → currentTheme w' = THEMES.LIGHT) ∧
  (currentTheme w = THEMES.LIGHT → currentTheme w' = THEMES.DARK) ∧
  (currentTheme w = THEMES.DARK → currentTheme w' = THEMES.SYSTEM).
Proof.
  cbv zeta. unfold ThemeManager.cycleTheme, exec. rewrite cycleTheme_unfold.
  split_and!; intros ->; cbv zeta; simpl String.eqb; cbv iota;
    match goal with
    | |- currentTheme ((saveTheme ?t;; _) _).2 = _ =>
        by destruct (save_then_apply_currentTheme t w) as (_ & Hc & _)
    end.
Qed.

(** ** Startup with a persisted value *)

(** C1, evaluated where the code departs from it: with the unrecognized
    string ["purple"] stored under the preference key, [initTheme] completes
    normally but [getTheme()] is then ["purple"], not ["system"], the root
    carries the marker [data-theme="purple"], and a toggle button shows its
    sun icon under the label of the dark theme. *)
Theorem initTheme_keeps_unrecognized_value :
  let w0 := freshSession (mkStorage {[THEME_KEY := "purple"]} false false)
                         None [mkToggleButton (Some "") (Some "") None None]
                         None in
  (initTheme w0).1 = Normal tt ∧
  ThemeManager.getTheme (exec initTheme w0) = "purple" ∧
  ThemeManager.getTheme (exec initTheme w0) ≠ THEMES.SYSTEM ∧
  dataTheme (exec initTheme w0) = Some "purple" ∧
  toggleButtons (exec initTheme w0) =
    [mkToggleButton (Some "block") (Some "none") None
       (Some "Using dark theme, click to use system theme")].
Proof. vm_compute. split_and!; done. Qed.

(** C10: a stored empty string is read like an absent value: the startup read
    returns ["system"] for it, exactly as it does once the key is removed. *)
Theorem getSavedTheme_empty_string (w : World) :
  items (localStorage w) !! THEME_KEY = Some "" →
  (getSavedTheme w).1 = Normal THEMES.SYSTEM ∧
  (getSavedTheme w).1 =
    (getSavedTheme
       (set_localStorage
          (mkStorage (delete THEME_KEY (items (localStorage w)))
                     (accessDenied (localStorage w))
                     (quotaExceeded (localStorage w))) w)).1.
Proof.
  intros Hempty.
  destruct (getSavedTheme_frame w) as (w1 & -> & _).
  match goal with
  | |- _ ∧ _ = (getSavedTheme ?u).1 =>
      destruct (getSavedTheme_frame u) as (w2 & -> & _)
  end.
  simpl. rewrite Hempty, lookup_delete_eq. simpl.
  by destruct (accessDenied (localStorage w)).
Qed.

Lemma getSavedTheme_empty_string_witness :
  let w := freshSession (mkStorage {[THEME_KEY := ""]} false false) None [] None in
  (getSavedTheme w).1 = Normal THEMES.SYSTEM.
Proof.
  intros w.
  exact (proj1 (getSavedTheme_empty_string w ltac:(vm_compute; reflexivity))).
Defined.

(** ** Applying a theme *)

(** C4: after [applyTheme("system")] the root has no [data-theme] attribute;
    after [applyTheme("light")] and [applyTheme("dark")] it has the attribute
    with that very value. *)
Theorem applyTheme_marker (w : World) :
  dataTheme (exec (applyTheme THEMES.SYSTEM) w) = None ∧
  dataTheme (exec (applyTheme THEMES.LIGHT) w) = Some THEMES.LIGHT ∧
  dataTheme (exec (applyTheme THEMES.DARK) w) = Some THEMES.DARK.
Proof. rewrite !applyTheme_dataTheme. done. Qed.

(** C5: every [applyTheme(theme)] completes normally having dispatched exactly
    one more event, a [themeChange] whose detail is [theme], and the listeners
    of that event already read [theme] from [getTheme()]. *)
Theorem applyTheme_dispatches_once (theme : string) (w : World) :
  ∃ w' ev,
    applyTheme theme w = (Normal tt, w') ∧
    dispatched w' = dispatched w ++ [ev] ∧
    evType ev = "themeChange" ∧
    detailTheme ev = theme ∧
    seenTheme ev = theme ∧
    ThemeManager.getTheme w' = theme.
Proof.
  eexists _, _. split; [apply applyTheme_eq|]. simpl. done.
Qed.

(** ** The public operations *)

(** C2: [setTheme(m)] with one of the three mode names makes [getTheme()]
    return [m]; with any other argument it changes nothing at all, so
    [getTheme()] answers as before. *)
Theorem setTheme_getTheme (w : World) :
  (∀ m, validMode m →
        (ThemeManager.setTheme (VString m) w).1 = Normal tt ∧
        ThemeManager.getTheme (exec (ThemeManager.setTheme (VString m)) w) = m) ∧
  (∀ v, invalidInput v →
        ThemeManager.setTheme v w = (Normal tt, w) ∧
        ThemeManager.getTheme (exec (ThemeManager.setTheme v) w) =
          ThemeManager.getTheme w).
Proof.
  split.
  - intros m Hm. rewrite (setTheme_valid m Hm).
    destruct (save_then_apply_currentTheme m w) as (-> & Hc & _). done.
  - intros v Hv. unfold exec. by rewrite (setTheme_invalid v w Hv).
Qed.

Lemma setTheme_getTheme_witness :
  let w := freshSession (mkStorage ∅ false false) None [] None in
  ThemeManager.getTheme (exec (ThemeManager.setTheme (VString "dark")) w) = "dark" ∧
  ThemeManager.setTheme (VString "purple") w = (Normal tt, w) ∧
  ThemeManager.setTheme (VNumber 7) w = (Normal tt, w).
Proof.
  intros w. split_and!.
  - apply (proj1 (setTheme_getTheme w) "dark"). right; right; reflexivity.
  - apply (proj2 (setTheme_getTheme w) (VString "purple")).
    unfold invalidInput; split_and!; discriminate.
  - apply (proj2 (setTheme_getTheme w) (VNumber 7)).
    unfold invalidInput; split_and!; discriminate.
Defined.

(** C3: from each of the three modes, [cycleTheme()] moves
    system -> light -> dark -> system, and three calls in a row bring
    [getTheme()] back to where it started. *)
Theorem cycleTheme_period_three (w : World) :
  validMode (ThemeManager.getTheme w) →
  let w1 := exec ThemeManager.cycleTheme w in
  let w2 := exec ThemeManager.cycleTheme w1 in
  let w3 := exec ThemeManager.cycleTheme w2 in
  (ThemeManager.getTheme w = THEMES.SYSTEM → ThemeManager.getTheme w1 = THEMES.LIGHT) ∧
  (ThemeManager.getTheme w = THEMES.LIGHT → ThemeManager.getTheme w1 = THEMES.DARK) ∧
  (ThemeManager.getTheme w = THEMES.DARK → ThemeManager.getTheme w1 = THEMES.SYSTEM) ∧
  ThemeManager.getTheme w3 = ThemeManager.getTheme w.
Proof.
  intros Hvalid w1 w2 w3. unfold ThemeManager.getTheme in *.
  destruct (cycleTheme_step w) as (Hs & Hl & Hd).
  destruct (cycleTheme_step w1) as (Hs1 & Hl1 & Hd1).
  destruct (cycleTheme_step w2) as (Hs2 & Hl2 & Hd2).
  fold w1 in Hs, Hl, Hd. fold w2 in Hs1, Hl1, Hd1. fold w3 in Hs2, Hl2, Hd2.
  split_and!; try done.
  destruct Hvalid as [H | [H | H]]; rewrite H; auto.
Qed.

Lemma cycleTheme_period_three_witness :
  let w := freshSession (mkStorage ∅ false false) None [] None in
  ThemeManager.getTheme
    (exec ThemeManager.cycleTheme
       (exec ThemeManager.cycleTheme (exec ThemeManager.cycleTheme w)))
  = ThemeManager.getTheme w.
Proof.
  intros w.
  apply (cycleTheme_period_three w). left; reflexivity.
Defined.

(** C9: when the current mode is none of the three names, [cycleTheme()] takes
    the default branch: it runs [saveTheme("system")] and
    [applyTheme("system")], so the mode becomes ["system"], the marker is
    removed, the change is announced, and a working store holds ["system"]
    under the preference key. *)
Theorem cycleTheme_default_branch (w : World) :
  ¬ validMode (ThemeManager.getTheme w) →
  let w' := exec ThemeManager.cycleTheme w in
  ThemeManager.cycleTheme w = (Normal tt, w') ∧
  ThemeManager.cycleTheme w =
    (saveTheme THEMES.SYSTEM;; applyTheme THEMES.SYSTEM) w ∧
  ThemeManager.getTheme w' = THEMES.SYSTEM ∧
  dataTheme w' = None ∧
  dispatched w' =
    dispatched w ++ [mkDispatch "themeChange" THEMES.SYSTEM THEMES.SYSTEM None] ∧
  (functional (localStorage w) →
   items (localStorage w') = <[THEME_KEY := THEMES.SYSTEM]> (items (localStorage w))).
Proof.
  unfold ThemeManager.getTheme, ThemeManager.cycleTheme. intros Hinv.
  destruct (not_validMode_eqb _ Hinv) as (Es & El & Ed).
  assert (Hstep : cycleTheme w =
                  (saveTheme THEMES.SYSTEM;; applyTheme THEMES.SYSTEM) w).
  { rewrite cycleTheme_unfold. cbv zeta. by rewrite Es, El, Ed. }
  cbv zeta. unfold exec. rewrite Hstep.
  destruct (save_then_apply_currentTheme THEMES.SYSTEM w)
    as (Hr & Hc & Hm & Hd & Hst).
  unfold exec in *.
  change (String.eqb THEMES.SYSTEM THEMES.SYSTEM) with true in Hm, Hd.
  split_and!; try done.
  intros Hf. rewrite Hst.
  pose proof (saveTheme_functional THEMES.SYSTEM w Hf) as Hsave.
  unfold exec in Hsave. by rewrite Hsave.
Qed.

Lemma cycleTheme_default_branch_witness :
  let w := exec initTheme
             (freshSession (mkStorage {[THEME_KEY := "purple"]} false false)
                           None [] None) in
  ThemeManager.getTheme (exec ThemeManager.cycleTheme w) = THEMES.SYSTEM.
Proof.
  intros w.
  refine (proj1 (proj2 (proj2 (cycleTheme_default_branch w _)))).
  vm_compute. intros [H | [H | H]]; discriminate H.
Defined.

(** ** Changes of the OS appearance signal *)

Lemma onSystemThemeChange_system (w : World) :
  currentTheme w = THEMES.SYSTEM →
  onSystemThemeChange w = applyTheme THEMES.SYSTEM w.
Proof.
  intros H. unfold onSystemThemeChange, get, mbind, M_bind. by rewrite H.
Qed.

Lemma onSystemThemeChange_explicit (w : World) :
  currentTheme w ≠ THEMES.SYSTEM →
  onSystemThemeChange w = (Normal tt, w).
Proof.
  intros H. apply String.eqb_neq in H.
  unfold onSystemThemeChange, get, mbind, M_bind. by rewrite H.
Qed.

Lemma osAppearanceChange_unfold (prefersDark : bool) (w : World) :
  osAppearanceChange prefersDark w =
  match matchMedia w with
  | Some mq =>
      times (changeListeners mq) onSystemThemeChange
        (set_matchMedia
           (Some (mkMediaQueryList prefersDark (hasAddEventListener mq)
                                   (changeListeners mq))) w)
  | None => (Normal tt, w)
  end.
Proof.
  unfold osAppearanceChange, get, modify, mbind, M_bind.
  by destruct (matchMedia w).
Qed.

Lemma osAppearanceChange_once (prefersDark : bool) (w : World) (mq : MediaQueryList) :
  matchMedia w = Some mq → changeListeners mq = 1 →
  osAppearanceChange prefersDark w =
  (onSystemThemeChange;; mret tt)
    (set_matchMedia
       (Some (mkMediaQueryList prefersDark (hasAddEventListener mq) 1)) w).
Proof.
  intros Hmq Hn. rewrite osAppearanceChange_unfold, Hmq, Hn. reflexivity.
Qed.

(** [initTheme] registers its [change] listener exactly when the media query
    list offers [addEventListener]. *)
Lemma initTheme_matchMedia (w : World) :
  matchMedia (exec initTheme w) =
  match matchMedia w with
  | Some mq =>
      if hasAddEventListener mq
      then Some (mkMediaQueryList (matches mq) (hasAddEventListener mq)
                                  (S (changeListeners mq)))
      else Some mq
  | None => None
  end.
Proof.
  destruct (getSavedTheme_frame w) as (w1 & Hg & _ & Hm & _).
  unfold exec, initTheme. rewrite (bind_normal _ _ _ _ _ Hg).
  unfold mbind at 1, M_bind at 1. rewrite applyTheme_eq.
  cbv beta iota zeta. unfold get. unfold mbind at 1, M_bind at 1. cbv beta iota.
  simpl matchMedia. rewrite Hm.
  destruct (matchMedia w) as [[mt [] n]|]; reflexivity.
Qed.

(** Where [initTheme] could not subscribe (no [matchMedia], or a media query
    list without [addEventListener]) no listener runs and a change of the
    signal leaves the controller untouched. *)
Lemma osAppearanceChange_unobserved (prefersDark : bool) (w : World) :
  (∀ mq, matchMedia w = Some mq → changeListeners mq = 0) →
  let w' := exec (osAppearanceChange prefersDark) w in
  dispatched w' = dispatched w ∧ currentTheme w' = currentTheme w ∧
  dataTheme w' = dataTheme w.
Proof.
  intros Hnone. cbv zeta. unfold exec. rewrite osAppearanceChange_unfold.
  destruct (matchMedia w) as [mq|] eqn:Hmq; [|done].
  by rewrite (Hnone mq eq_refl).
Qed.

Lemma times_onSystemThemeChange_explicit (n : nat) (w : World) :
  currentTheme w ≠ THEMES.SYSTEM →
  times n onSystemThemeChange w = (Normal tt, w).
Proof.
  intros Hexp. induction n as [|n IH]; [done|].
  simpl. unfold mbind, M_bind.
  by rewrite (onSystemThemeChange_explicit w Hexp).
Qed.

(** C6, as the code has it: an explicit mode is sticky in every environment
    (a change of the OS appearance signal dispatches nothing and leaves the
    mode and the marker alone); in mode ["system"] the change dispatches one
    [themeChange] with theme ["system"], keeps the mode and refreshes the
    toggle icons from the new signal when [initTheme] has registered its
    [change] listener, which it does only where [window.matchMedia] exists
    and the media query list offers [addEventListener] (first conjunct);
    where it could not subscribe, nothing is dispatched and nothing
    changes. *)
Theorem osAppearanceChange_handler (prefersDark : bool) (w : World) :
  let w' := exec (osAppearanceChange prefersDark) w in
  matchMedia (exec initTheme w) =
    match matchMedia w with
    | Some mq =>
        if hasAddEventListener mq
        then Some (mkMediaQueryList (matches mq) (hasAddEventListener mq)
                                    (S (changeListeners mq)))
        else Some mq
    | None => None
    end ∧
  (ThemeManager.getTheme w = THEMES.SYSTEM →
   ∀ mq, matchMedia w = Some mq → changeListeners mq = 1 →
     (osAppearanceChange prefersDark w).1 = Normal tt ∧
     (∃ ev, dispatched w' = dispatched w ++ [ev] ∧
            evType ev = "themeChange" ∧ detailTheme ev = THEMES.SYSTEM) ∧
     ThemeManager.getTheme w' = THEMES.SYSTEM ∧
     dataTheme w' = None ∧
     toggleButtons w' =
       refreshToggleButton THEMES.SYSTEM
         (if prefersDark then THEMES.DARK else THEMES.LIGHT)
       <$> toggleButtons w) ∧
  (ThemeManager.getTheme w = THEMES.SYSTEM →
   (∀ mq, matchMedia w = Some mq → changeListeners mq = 0) →
     (osAppearanceChange prefersDark w).1 = Normal tt ∧
     dispatched w' = dispatched w ∧
     ThemeManager.getTheme w' = THEMES.SYSTEM ∧
     dataTheme w' = dataTheme w ∧
     toggleButtons w' = toggleButtons w) ∧
  (ThemeManager.getTheme w ≠ THEMES.SYSTEM →
     (osAppearanceChange prefersDark w).1 = Normal tt ∧
     dispatched w' = dispatched w ∧
     ThemeManager.getTheme w' = ThemeManager.getTheme w ∧
     dataTheme w' = dataTheme w).
Proof.
  cbv zeta. split; [apply initTheme_matchMedia|].
  unfold ThemeManager.getTheme, exec. split_and!.
  - intros Hsys mq Hmq Hn.
    rewrite (osAppearanceChange_once prefersDark w mq Hmq Hn).
    set (w1 := set_matchMedia _ w).
    assert (Hrun : (onSystemThemeChange;; mret tt) w1 = applyTheme THEMES.SYSTEM w1).
    { unfold mbind, M_bind.
      rewrite (onSystemThemeChange_system w1) by done.
      by rewrite applyTheme_eq. }
    rewrite Hrun, applyTheme_eq. simpl.
    split_and!; try done; try (by destruct prefersDark).
    eexists. split_and!; [reflexivity | done | done].
  - intros Hsys Hnone. rewrite osAppearanceChange_unfold.
    destruct (matchMedia w) as [mq|] eqn:Hmq; [|done].
    by rewrite (Hnone mq eq_refl).
  - intros Hexp. rewrite osAppearanceChange_unfold.
    destruct (matchMedia w) as [mq|] eqn:Hmq; [|done].
    by rewrite times_onSystemThemeChange_explicit.
Qed.

Lemma osAppearanceChange_handler_witness :
  let w := exec initTheme
             (freshSession (mkStorage ∅ false false) None []
                           (Some (mkMediaQueryList false true 0))) in
  (osAppearanceChange true w).1 = Normal tt ∧
  ThemeManager.getTheme (exec (osAppearanceChange true) w) = THEMES.SYSTEM.
Proof.
  intros w.
  assert (Hsys : ThemeManager.getTheme w = THEMES.SYSTEM)
    by (vm_compute; reflexivity).
  assert (Hmq : matchMedia w = Some (mkMediaQueryList false true 1))
    by (vm_compute; reflexivity).
  destruct (proj1 (proj2 (osAppearanceChange_handler true w)) Hsys _ Hmq eq_refl)
    as (Hret & _ & Hmode & _).
  by split.
Defined.

(** C6 fails as stated: in a browser whose media query list has no
    [addEventListener], [initTheme] registers no [change] listener; with the
    mode ["system"], a change of the OS appearance signal then dispatches no
    [themeChange] at all. *)
Lemma osAppearanceChange_unsubscribed_counterexample :
  let w := exec initTheme
             (freshSession (mkStorage ∅ false false) None []
                           (Some (mkMediaQueryList false false 0))) in
  ThemeManager.getTheme w = THEMES.SYSTEM ∧
  dispatched (exec (osAppearanceChange true) w) = dispatched w ∧
  ¬ (∃ ev, dispatched (exec (osAppearanceChange true) w) = dispatched w ++ [ev]).
Proof.
  vm_compute. split_and!; [reflexivity | reflexivity |].
  intros [ev Hev]. discriminate Hev.
Qed.

(** ** Failures of the store *)

(** C7: when [localStorage.setItem] throws inside [setTheme(m)] for a mode
    name [m], [setTheme] still completes normally, [getTheme()] is [m], the
    marker for [m] is on the root and the change is announced; when
    [localStorage.getItem] throws inside [initTheme], [initTheme] completes
    normally with mode ["system"] and no marker. *)
Theorem store_failure_contained (m : string) (w : World) (e : Exn) :
  validMode m →
  ((localStorage_setItem THEME_KEY m w).1 = Throw e →
     let w' := exec (ThemeManager.setTheme (VString m)) w in
     (ThemeManager.setTheme (VString m) w).1 = Normal tt ∧
     ThemeManager.getTheme w' = m ∧
     dataTheme w' = (if String.eqb m THEMES.SYSTEM then None else Some m) ∧
     (∃ ev, dispatched w' = dispatched w ++ [ev] ∧
            evType ev = "themeChange" ∧ detailTheme ev = m) ∧
     localStorage w' = localStorage w) ∧
  ((localStorage_getItem THEME_KEY w).1 = Throw e →
     (initTheme w).1 = Normal tt ∧
     ThemeManager.getTheme (exec initTheme w) = THEMES.SYSTEM ∧
     dataTheme (exec initTheme w) = None).
Proof.
  intros Hm. split.
  - intros Hthrow. cbv zeta. rewrite (setTheme_valid m Hm).
    destruct (save_then_apply_currentTheme m w) as (Hr & Hc & Hmk & Hd & Hst).
    rewrite Hr. split_and!; try done.
    + eexists. split_and!; [exact Hd | done | done].
    + rewrite Hst. by apply saveTheme_failing with e.
  - intros Hthrow. destruct (initTheme_result w) as (Hr & Hc & Hd).
    assert (Hdenied : accessDenied (localStorage w) = true).
    { unfold localStorage_getItem in Hthrow.
      by destruct (accessDenied (localStorage w)). }
    rewrite Hdenied in Hc, Hd. done.
Qed.

Lemma store_failure_contained_witness :
  let w := freshSession (mkStorage ∅ true true) None [] None in
  ThemeManager.getTheme (exec (ThemeManager.setTheme (VString "light")) w) = "light" ∧
  ThemeManager.getTheme (exec initTheme w) = THEMES.SYSTEM.
Proof.
  intros w.
  assert (Hvalid : validMode "light") by (right; left; reflexivity).
  split.
  - refine (proj1 (proj2
      (proj1 (store_failure_contained "light" w SecurityError Hvalid) _))).
    reflexivity.
  - refine (proj1 (proj2
      (proj2 (store_failure_contained "light" w SecurityError Hvalid) _))).
    reflexivity.
Defined.

(** ** Persistence across sessions *)

(** C8: with a working store, [setTheme(m)] for a mode name [m] stores exactly
    [m] under the preference key and changes no other entry, and [initTheme]
    in any later session over that store completes with [getTheme()] equal to
    [m]. *)
Theorem setTheme_initTheme_roundtrip (m : string) (w : World) :
  validMode m → functional (localStorage w) →
  let w' := exec (ThemeManager.setTheme (VString m)) w in
  items (localStorage w') = <[THEME_KEY := m]> (items (localStorage w)) ∧
  items (localStorage w') !! THEME_KEY = Some m ∧
  ∀ w0, localStorage w0 = localStorage w' →
        (initTheme w0).1 = Normal tt ∧
        ThemeManager.getTheme (exec initTheme w0) = m.
Proof.
  intros Hm Hf. cbv zeta. rewrite (setTheme_valid m Hm).
  destruct (save_then_apply_currentTheme m w) as (_ & _ & _ & _ & Hst).
  rewrite Hst, (saveTheme_functional m w Hf). simpl.
  split; [done|]. split; [apply lookup_insert_eq|].
  intros w0 Hw0. destruct (initTheme_result w0) as (Hr & Hc & _).
  split; [done|]. unfold ThemeManager.getTheme. rewrite Hc, Hw0.
  simpl. rewrite lookup_insert_eq.
  by destruct Hm as [-> | [-> | ->]].
Qed.

Lemma setTheme_initTheme_roundtrip_witness :
  let w := freshSession (mkStorage ∅ false false) None [] None in
  let w' := exec (ThemeManager.setTheme (VString "dark")) w in
  items (localStorage w') !! THEME_KEY = Some "dark" ∧
  ThemeManager.getTheme
    (exec initTheme (freshSession (localStorage w') None [] None)) = "dark".
Proof.
  intros w w'.
  assert (Hvalid : validMode "dark") by (right; right; reflexivity).
  assert (Hfun : functional (localStorage w)) by (split; reflexivity).
  destruct (setTheme_initTheme_roundtrip "dark" w Hvalid Hfun) as (_ & Hkey & Hinit).
  split; [exact Hkey|].
  exact (proj2 (Hinit (freshSession (localStorage w') None [] None) eq_refl)).
Defined.

(** ** Invariants of the running page *)

Lemma keeps_ret (P : World → Prop) : keeps P (mret tt).
Proof. intros w Hw. by split. Qed.

Lemma keeps_bind (P : World → Prop) (m k : M unit) :
  keeps P m → keeps P k → keeps P (m;; k).
Proof.
  intros Hm Hk w Hw. destruct (Hm w Hw) as (Em & Pm).
  destruct (Hk _ Pm) as (Ek & Pk).
  assert (E : (m;; k) w = k (exec m w)).
  { unfold mbind, M_bind. by rewrite Em. }
  unfold exec in *. rewrite E. by split.
Qed.

Lemma keeps_times (P : World → Prop) (m : M unit) (n : nat) :
  keeps P m → keeps P (times n m).
Proof.
  intros Hm. induction n as [|n IH]; simpl.
  - apply keeps_ret.
  - by apply keeps_bind.
Qed.

Lemma keeps_get (P : World → Prop) (k : World → M unit) :
  (∀ w, P w → k w w = (Normal tt, exec (k w) w) ∧ P (exec (k w) w)) →
  keeps P (get ≫= k).
Proof. intros Hk w Hw. exact (Hk w Hw). Qed.

Lemma Array_includes_valid (v : JSValue) :
  Array_includes Object_values_THEMES v = true →
  ∃ m, v = VString m ∧ validMode m.
Proof.
  destruct v; try discriminate. intros H. exists s. split; [done|].
  change (Array_includes Object_values_THEMES (VString s))
    with (String.eqb THEMES.SYSTEM s ||
          (String.eqb THEMES.LIGHT s || (String.eqb THEMES.DARK s || false))) in H.
  rewrite !orb_true_iff, !String.eqb_eq in H. unfold validMode.
  destruct H as [<- | [<- | [<- | ?]]]; auto. discriminate.
Qed.

Lemma cycleTheme_next (w : World) :
  ∃ n, validMode n ∧ cycleTheme w = (saveTheme n;; applyTheme n) w.
Proof.
  rewrite cycleTheme_unfold. cbv zeta. unfold validMode.
  destruct (String.eqb (currentTheme w) THEMES.SYSTEM);
    [|destruct (String.eqb (currentTheme w) THEMES.LIGHT);
      [|destruct (String.eqb (currentTheme w) THEMES.DARK)]];
    eexists; (split; [|reflexivity]); auto.
Qed.

(** A click on a node that is not an element: with a listener registered,
    the listener throws before it changes anything. *)
Lemma documentClick_not_element (w : World) :
  documentClick NotAnElement w =
  (if bool_decide (clickListeners w = 0) then Normal tt else Throw TypeError, w).
Proof.
  unfold documentClick, get, mbind, M_bind.
  by destruct (clickListeners w).
Qed.

Lemma asTask_click_not_element (w : World) :
  asTask (perform (ClickAt NotAnElement)) w = (Normal tt, w).
Proof.
  unfold asTask, try_catch. simpl. rewrite documentClick_not_element.
  by case_bool_decide.
Qed.

Section Invariant.

Variable P : World → Prop.

(** [P] survives storing and applying a mode name, re-applying ["system"] in
    mode ["system"], and an update of the media query's [matches]. *)
Hypothesis P_set : ∀ t w,
  validMode t → P w → P (exec (saveTheme t;; applyTheme t) w).
Hypothesis P_reapply : ∀ w,
  P w → currentTheme w = THEMES.SYSTEM → P (exec (applyTheme THEMES.SYSTEM) w).
Hypothesis P_signal : ∀ w mq prefersDark,
  P w → matchMedia w = Some mq →
  P (set_matchMedia
       (Some (mkMediaQueryList prefersDark (hasAddEventListener mq)
                               (changeListeners mq))) w).

Lemma keeps_save_apply (t : string) :
  validMode t → keeps P (saveTheme t;; applyTheme t).
Proof.
  intros Ht w Hw. split; [|by apply P_set].
  by destruct (save_then_apply_currentTheme t w) as (-> & _).
Qed.

Lemma keeps_setTheme (v : JSValue) : keeps P (ThemeManager.setTheme v).
Proof.
  intros w Hw. unfold ThemeManager.setTheme, exec.
  destruct (Array_includes Object_values_THEMES v) eqn:E; [|by split].
  destruct (Array_includes_valid v E) as (m & -> & Hm).
  by apply keeps_save_apply.
Qed.

Lemma keeps_cycleTheme : keeps P cycleTheme.
Proof.
  intros w Hw. destruct (cycleTheme_next w) as (n & Hn & E).
  unfold exec. rewrite E. by apply keeps_save_apply.
Qed.

Lemma keeps_onSystemThemeChange : keeps P onSystemThemeChange.
Proof.
  intros w Hw. unfold exec.
  destruct (String.eqb_spec (currentTheme w) THEMES.SYSTEM) as [Hs | Hs].
  - rewrite (onSystemThemeChange_system w Hs), applyTheme_eq.
    split; [done|]. pose proof (P_reapply w Hw Hs) as HP.
    unfold exec in HP. by rewrite applyTheme_eq in HP.
  - rewrite (onSystemThemeChange_explicit w Hs). by split.
Qed.

Lemma keeps_documentClick (insideToggle : bool) :
  keeps P (documentClick (AnElement insideToggle)).
Proof.
  apply keeps_get. intros w Hw. apply keeps_times; [|done].
  destruct insideToggle; [apply keeps_cycleTheme | apply keeps_ret].
Qed.

Lemma keeps_osAppearanceChange (prefersDark : bool) :
  keeps P (osAppearanceChange prefersDark).
Proof.
  intros w Hw. unfold exec. rewrite osAppearanceChange_unfold.
  destruct (matchMedia w) as [mq|] eqn:Hmq; [|by split].
  apply (keeps_times P onSystemThemeChange (changeListeners mq)
           keeps_onSystemThemeChange).
  by apply P_signal.
Qed.

Lemma keeps_asTask (m : M unit) : keeps P m → keeps P (asTask m).
Proof.
  intros Hm w Hw. destruct (Hm w Hw) as (E & HP).
  unfold exec, asTask, try_catch in *. rewrite E. by split.
Qed.

(** Every action but a click on a node that is not an element completes
    normally and keeps [P]. *)
Lemma keeps_perform (a : Action) :
  a ≠ ClickAt NotAnElement → keeps P (perform a).
Proof.
  destruct a as [v| |[|b]|d]; simpl; intros Ha.
  - apply keeps_setTheme.
  - apply keeps_cycleTheme.
  - done.
  - apply keeps_documentClick.
  - apply keeps_osAppearanceChange.
Qed.

Lemma keeps_perform_task (a : Action) : keeps P (asTask (perform a)).
Proof.
  destruct a as [v| |[|b]|d]; try (by apply keeps_asTask, keeps_perform).
  intros w Hw. unfold exec. rewrite (asTask_click_not_element w). by split.
Qed.

Lemma keeps_performAll (acts : list Action) : keeps P (performAll acts).
Proof.
  induction acts as [|a rest IH]; simpl.
  - apply keeps_ret.
  - apply keeps_bind; [apply keeps_perform_task | exact IH].
Qed.

End Invariant.

(** ** Closed forms of the store accesses and of the startup *)

Lemma saveTheme_eq (theme : string) (w : World) :
  saveTheme theme w =
  (Normal tt,
   if accessDenied (localStorage w) then
     set_consoleWarnings
       (consoleWarnings w ++ [("Could not save theme preference:", SecurityError)]) w
   else if quotaExceeded (localStorage w) then
     set_consoleWarnings
       (consoleWarnings w ++ [("Could not save theme preference:", QuotaExceededError)]) w
   else
     set_localStorage
       (mkStorage (<[THEME_KEY := theme]> (items (localStorage w))) false false) w).
Proof. destruct w as [[it [] []] mk cur bs ds cw mq cl]; reflexivity. Qed.

Lemma getSavedTheme_eq (w : World) :
  getSavedTheme w =
  if accessDenied (localStorage w) then
    (Normal THEMES.SYSTEM,
     set_consoleWarnings
       (consoleWarnings w ++ [("localStorage not available:", SecurityError)]) w)
  else (Normal (or_else (items (localStorage w) !! THEME_KEY) THEMES.SYSTEM), w).
Proof. destruct w as [[it [] qe] mk cur bs ds cw mq cl]; reflexivity. Qed.

(** The mode name the startup read produces in [w]. *)
Lemma initTheme_eq (w : World) :
  let saved := if accessDenied (localStorage w) then THEMES.SYSTEM
               else or_else (items (localStorage w) !! THEME_KEY) THEMES.SYSTEM in
  let marker := if String.eqb saved THEMES.SYSTEM then None else Some saved in
  initTheme w =
  (Normal tt,
   mkWorld (localStorage w) marker saved
     (refreshToggleButton saved
        (match matchMedia w with
         | Some mq => if matches mq then THEMES.DARK else THEMES.LIGHT
         | None => THEMES.LIGHT
         end) <$> toggleButtons w)
     (dispatched w ++ [mkDispatch "themeChange" saved saved marker])
     (if accessDenied (localStorage w)
      then consoleWarnings w ++ [("localStorage not available:", SecurityError)]
      else consoleWarnings w)
     (match matchMedia w with
      | Some mq =>
          if hasAddEventListener mq
          then Some (mkMediaQueryList (matches mq) (hasAddEventListener mq)
                                      (S (changeListeners mq)))
          else Some mq
      | None => None
      end)
     (S (clickListeners w))).
Proof.
  cbv zeta. unfold initTheme.
  unfold mbind at 1, M_bind at 1. rewrite getSavedTheme_eq.
  destruct (accessDenied (localStorage w)) eqn:Hden.
  - unfold mbind at 1, M_bind at 1. rewrite applyTheme_eq. cbv beta iota zeta.
    unfold get, modify, mbind, M_bind, mret, M_ret. simpl.
    rewrite ?Hden.
    destruct (matchMedia w) as [[mt [] n]|]; reflexivity.
  - set (t := or_else _ _).
    unfold mbind at 1, M_bind at 1. rewrite applyTheme_eq. cbv beta iota zeta.
    unfold get, modify, mbind, M_bind, mret, M_ret. simpl.
    destruct (matchMedia w) as [[mt [] n]|]; reflexivity.
Qed.

Lemma save_apply_eq (theme : string) (w : World) :
  (saveTheme theme;; applyTheme theme) w =
  applyTheme theme (exec (saveTheme theme) w).
Proof. unfold mbind, M_bind, exec. by rewrite saveTheme_eq. Qed.

Lemma or_else_valid (m : string) :
  validMode m → or_else (Some m) THEMES.SYSTEM = m.
Proof. by intros [-> | [-> | ->]]. Qed.

Lemma save_apply_fields (theme : string) (w : World) :
  let w' := exec (saveTheme theme;; applyTheme theme) w in
  currentTheme w' = theme ∧
  dataTheme w' = (if String.eqb theme THEMES.SYSTEM then None else Some theme) ∧
  dispatched w' =
    dispatched w ++
    [mkDispatch "themeChange" theme theme
       (if String.eqb theme THEMES.SYSTEM then None else Some theme)] ∧
  localStorage w' = localStorage (exec (saveTheme theme) w) ∧
  matchMedia w' = matchMedia w ∧ clickListeners w' = clickListeners w.
Proof.
  cbv zeta. unfold exec. rewrite save_apply_eq, applyTheme_eq. unfold exec.
  rewrite saveTheme_eq. simpl.
  destruct (accessDenied (localStorage w)), (quotaExceeded (localStorage w));
    by split_and!.
Qed.

Lemma saveTheme_localStorage (theme : string) (w : World) :
  localStorage (exec (saveTheme theme) w) =
  if accessDenied (localStorage w) || quotaExceeded (localStorage w)
  then localStorage w
  else mkStorage (<[THEME_KEY := theme]> (items (localStorage w))) false false.
Proof.
  unfold exec. rewrite saveTheme_eq. simpl.
  by destruct (accessDenied (localStorage w)), (quotaExceeded (localStorage w)).
Qed.

Lemma started_page_invariant (P : World → Prop) (acts : list Action)
    (w : World) :
  (∀ t u, validMode t → P u → P (exec (saveTheme t;; applyTheme t) u)) →
  (∀ u, P u → currentTheme u = THEMES.SYSTEM →
        P (exec (applyTheme THEMES.SYSTEM) u)) →
  (∀ u mq prefersDark, P u → matchMedia u = Some mq →
        P (set_matchMedia
             (Some (mkMediaQueryList prefersDark (hasAddEventListener mq)
                                     (changeListeners mq))) u)) →
  P (exec initTheme w) →
  (initTheme;; performAll acts) w =
    (Normal tt, exec (initTheme;; performAll acts) w) ∧
  P (exec (initTheme;; performAll acts) w).
Proof.
  intros Hset Hre Hsig Hinit.
  destruct (keeps_performAll P Hset Hre Hsig acts _ Hinit) as (E & HP).
  assert (Ei : initTheme w = (Normal tt, exec initTheme w)).
  { unfold exec. by rewrite initTheme_eq. }
  assert (Eseq : (initTheme;; performAll acts) w =
                 performAll acts (exec initTheme w)).
  { unfold mbind, M_bind. by rewrite Ei. }
  unfold exec in *. rewrite Eseq. by split.
Qed.

(** ** What holds in every state the page can reach *)

(** X1: [initTheme], every [setTheme] and [cycleTheme] call, every OS signal
    change and every click on an element complete without an exception; a
    click whose target is not an element makes the registered click listener
    throw a [TypeError] before it changes anything.  Whatever the store and
    the page hold at startup, after [initTheme] and any sequence of these the
    root's marker is the one of the current mode: absent for ["system"],
    equal to the mode otherwise. *)
Theorem marker_agrees_always (w : World) (acts : list Action) :
  let w' := exec (initTheme;; performAll acts) w in
  (initTheme w).1 = Normal tt ∧
  (∀ a u, a ≠ ClickAt NotAnElement → (perform a u).1 = Normal tt) ∧
  (∀ u, perform (ClickAt NotAnElement) u =
        (if bool_decide (clickListeners u = 0) then Normal tt
         else Throw TypeError, u)) ∧
  dataTheme w' =
    if String.eqb (ThemeManager.getTheme w') THEMES.SYSTEM
    then None else Some (ThemeManager.getTheme w').
Proof.
  cbv zeta. split_and!.
  - by rewrite initTheme_eq.
  - intros a u Ha.
    by destruct (keeps_perform (λ _, True) (λ _ _ _ _, I) (λ _ _ _, I)
                   (λ _ _ _ _ _, I) a Ha u I) as (-> & _).
  - intros u. apply documentClick_not_element.
  - apply (started_page_invariant markerAgrees).
    + intros t u _ _. unfold markerAgrees.
      destruct (save_apply_fields t u) as (-> & -> & _). done.
    + intros u _ _. unfold markerAgrees, exec. by rewrite applyTheme_eq.
    + done.
    + unfold markerAgrees, exec. by rewrite initTheme_eq.
Qed.

Lemma marker_agrees_always_witness :
  let w := freshSession (mkStorage {[THEME_KEY := "dark"]} false false)
                        None [] None in
  let acts := [ClickAt (AnElement true); ClickAt NotAnElement] in
  (perform (ClickAt (AnElement true)) (exec initTheme w)).1 = Normal tt ∧
  (perform (ClickAt NotAnElement) (exec initTheme w)).1 = Throw TypeError ∧
  dataTheme (exec (initTheme;; performAll acts) w) = None.
Proof.
  intros w acts.
  destruct (marker_agrees_always w acts) as (_ & Hok & Hthrow & Hmarker).
  split_and!.
  - apply Hok. discriminate.
  - rewrite Hthrow. vm_compute. reflexivity.
  - rewrite Hmarker. vm_compute. reflexivity.
Defined.

(** X2: Once the current mode is one of the three names, no call of [setTheme]
    (with any argument) or [cycleTheme], no click and no OS signal change
    makes it anything else. *)
Theorem valid_mode_preserved (w : World) (acts : list Action) :
  validMode (ThemeManager.getTheme w) →
  validMode (ThemeManager.getTheme (exec (performAll acts) w)).
Proof.
  unfold ThemeManager.getTheme. intros Hw.
  refine (proj2 (keeps_performAll (λ u, validMode (currentTheme u)) _ _ _ acts w Hw)).
  - intros t u Ht _. by destruct (save_apply_fields t u) as (-> & _).
  - intros u _ _. rewrite applyTheme_currentTheme. by left.
  - done.
Qed.

Lemma valid_mode_preserved_witness :
  validMode
    (ThemeManager.getTheme
       (exec (performAll [ClickAt (AnElement true); ClickAt NotAnElement;
                          CallSetTheme (VString "purple");
                          OsChange true; CallCycleTheme])
             (exec initTheme
                (freshSession (mkStorage ∅ false true) None []
                              (Some (mkMediaQueryList false true 0)))))).
Proof.
  apply valid_mode_preserved. vm_compute. left; reflexivity.
Defined.

(** X3: With a working store, after [initTheme] and any calls, clicks and OS
    signal changes, a reload restores the mode: [initTheme] in a later
    session over the store as it then is yields the same [getTheme()]. *)
Theorem reload_restores_mode (w w0 : World) (acts : list Action) :
  functional (localStorage w) →
  let w' := exec (initTheme;; performAll acts) w in
  localStorage w0 = localStorage w' →
  ThemeManager.getTheme (exec initTheme w0) = ThemeManager.getTheme w'.
Proof.
  intros Hf. cbv zeta. intros Hw0. unfold ThemeManager.getTheme.
  set (P := λ u : World,
         functional (localStorage u) ∧
         or_else (items (localStorage u) !! THEME_KEY) THEMES.SYSTEM
           = currentTheme u).
  assert (HP : P (exec (initTheme;; performAll acts) w)).
  { apply (started_page_invariant P).
    - intros t u Ht (Hfu & _). unfold P.
      destruct (save_apply_fields t u) as (-> & _ & _ & -> & _).
      rewrite saveTheme_localStorage. destruct Hfu as (-> & ->). simpl.
      split; [by split|]. rewrite lookup_insert_eq. by apply or_else_valid.
    - intros u (Hfu & Hu) Hs. unfold P, exec. rewrite applyTheme_eq. simpl.
      split; [done|]. by rewrite Hu.
    - done.
    - unfold P, exec. rewrite initTheme_eq. simpl. split; [done|].
      by destruct Hf as (-> & _). }
  destruct HP as ((Hden & _) & Hcur). rewrite <- Hcur, <- Hw0.
  rewrite <- Hw0 in Hden.
  unfold exec. rewrite initTheme_eq. simpl. by rewrite Hden.
Qed.

Lemma reload_restores_mode_witness :
  let w := freshSession (mkStorage ∅ false false) None []
                        (Some (mkMediaQueryList false true 0)) in
  let acts := [ClickAt (AnElement true); CallSetTheme (VNumber 3);
               ClickAt NotAnElement; ClickAt (AnElement true); OsChange true] in
  let w' := exec (initTheme;; performAll acts) w in
  ThemeManager.getTheme
    (exec initTheme (freshSession (localStorage w') None [] None))
  = ThemeManager.getTheme w'.
Proof.
  intros w acts w'.
  apply (reload_restores_mode w (freshSession (localStorage w') None [] None) acts).
  - split; reflexivity.
  - vm_compute. reflexivity.
Defined.

(** X4: The events carry the script's own state: after [initTheme] and any
    calls, clicks and OS signal changes, the events dispatched so far extend
    the earlier ones by at least one, and each new one is a [themeChange]
    whose detail is the value the script's variable [currentTheme] held, and
    whose marker was on the root, when it was dispatched.  (Whether
    [window.ThemeManager] is already assigned at that moment is not part of
    the statement.) *)
Theorem events_agree_always (w : World) (acts : list Action) :
  ∃ news,
    dispatched (exec (initTheme;; performAll acts) w) = dispatched w ++ news ∧
    news ≠ [] ∧
    Forall eventAgrees news.
Proof.
  set (P := λ u : World,
         ∃ news, dispatched u = dispatched w ++ news ∧ news ≠ [] ∧
                 Forall eventAgrees news).
  refine (proj2 (started_page_invariant P acts w _ _ _ _)).
  - intros t u _ (news & Hu & Hne & Hall).
    destruct (save_apply_fields t u) as (_ & _ & Hd & _).
    exists (news ++ [mkDispatch "themeChange" t t
                       (if String.eqb t THEMES.SYSTEM then None else Some t)]).
    rewrite Hd, Hu, <- (assoc_L (++)). split_and!; [done | by destruct news |].
    apply Forall_app. split; [done|]. by apply Forall_singleton.
  - intros u (news & Hu & Hne & Hall) _. unfold exec. rewrite applyTheme_eq. simpl.
    exists (news ++ [mkDispatch "themeChange" THEMES.SYSTEM THEMES.SYSTEM None]).
    rewrite Hu, <- (assoc_L (++)). split_and!; [done | by destruct news |].
    apply Forall_app. split; [done|]. by apply Forall_singleton.
  - done.
  - unfold P, exec. rewrite initTheme_eq. simpl. eexists. split_and!; [done..|].
    by apply Forall_singleton.
Qed.

(** X5: The script writes nothing but mode names under its own key: after
    [initTheme] and any calls, clicks and OS signal changes, every other key
    of [localStorage] maps to what it mapped to before, and the preference
    key holds either its old value or one of the three names. *)
Theorem store_touched_only_at_key (w : World) (acts : list Action) :
  let w' := exec (initTheme;; performAll acts) w in
  (∀ k, k ≠ THEME_KEY →
        items (localStorage w') !! k = items (localStorage w) !! k) ∧
  (items (localStorage w') !! THEME_KEY = items (localStorage w) !! THEME_KEY ∨
   ∃ m, validMode m ∧ items (localStorage w') !! THEME_KEY = Some m).
Proof.
  set (P := λ u : World,
         (∀ k, k ≠ THEME_KEY →
               items (localStorage u) !! k = items (localStorage w) !! k) ∧
         (items (localStorage u) !! THEME_KEY = items (localStorage w) !! THEME_KEY ∨
          ∃ m, validMode m ∧ items (localStorage u) !! THEME_KEY = Some m)).
  refine (proj2 (started_page_invariant P acts w _ _ _ _)).
  - intros t u Ht (Hother & Hkey). unfold P.
    destruct (save_apply_fields t u) as (_ & _ & _ & -> & _).
    rewrite saveTheme_localStorage.
    destruct (accessDenied (localStorage u) || quotaExceeded (localStorage u));
      [done|]. simpl. split.
    + intros k Hk. rewrite lookup_insert_ne by done. by apply Hother.
    + right. exists t. by rewrite lookup_insert_eq.
  - intros u Hu _. unfold P, exec. by rewrite applyTheme_eq.
  - done.
  - unfold P, exec. rewrite initTheme_eq. simpl. split; [done | by left].
Qed.

(** ** Warnings *)

(** X6: [setTheme(m)] for a mode name logs exactly one warning, with the
    exception thrown, when the write to the store throws, and none when it
    succeeds; an invalid argument logs nothing. *)
Theorem setTheme_warnings (v : JSValue) (w : World) :
  consoleWarnings (exec (ThemeManager.setTheme v) w) =
  match v with
  | VString m =>
      if Array_includes Object_values_THEMES v then
        match (localStorage_setItem THEME_KEY m w).1 with
        | Throw e => consoleWarnings w ++ [("Could not save theme preference:", e)]
        | Normal _ => consoleWarnings w
        end
      else consoleWarnings w
  | _ => consoleWarnings w
  end.
Proof.
  unfold ThemeManager.setTheme, exec.
  destruct (Array_includes Object_values_THEMES v) eqn:E.
  - destruct (Array_includes_valid v E) as (m & -> & Hm).
    rewrite save_apply_eq, applyTheme_eq. unfold exec. rewrite saveTheme_eq.
    unfold localStorage_setItem. simpl.
    by destruct (accessDenied (localStorage w)), (quotaExceeded (localStorage w)).
  - by destruct v.
Qed.

(** X7: [initTheme] only reads the store: [localStorage] is left exactly as it
    was, one warning is logged when reading throws and none otherwise, one
    [themeChange] is dispatched and one more [click] listener is registered. *)
Theorem initTheme_reads_only (w : World) :
  let w' := exec initTheme w in
  localStorage w' = localStorage w ∧
  consoleWarnings w' =
    match (localStorage_getItem THEME_KEY w).1 with
    | Throw e => consoleWarnings w ++ [("localStorage not available:", e)]
    | Normal _ => consoleWarnings w
    end ∧
  length (dispatched w') = S (length (dispatched w)) ∧
  clickListeners w' = S (clickListeners w).
Proof.
  cbv zeta. unfold exec. rewrite initTheme_eq. simpl.
  unfold localStorage_getItem. rewrite length_app. simpl.
  destruct (accessDenied (localStorage w)); split_and!; try done; lia.
Qed.

(** ** The toggle buttons *)

Lemma refreshToggleButton_incomplete (current pref : string) (b : ToggleButton) :
  sunIcon b = None ∨ moonIcon b = None →
  refreshToggleButton current pref b = b.
Proof.
  unfold refreshToggleButton. intros [H | H]; rewrite H; [done|].
  by destruct (sunIcon b).
Qed.

Lemma refreshToggleButton_complete (current pref : string) (b : ToggleButton) :
  is_Some (sunIcon (refreshToggleButton current pref b)) →
  is_Some (moonIcon (refreshToggleButton current pref b)) →
  is_Some (sunIcon b) ∧ is_Some (moonIcon b).
Proof.
  destruct (sunIcon b) as [s|] eqn:Hs; [destruct (moonIcon b) as [m|] eqn:Hm|].
  - by split.
  - rewrite (refreshToggleButton_incomplete current pref b) by auto.
    rewrite Hm. by intros _ [? ?].
  - rewrite (refreshToggleButton_incomplete current pref b) by auto.
    rewrite Hs. by intros [? ?].
Qed.

Lemma refreshToggleButton_idempotent (current pref : string) (b : ToggleButton) :
  refreshToggleButton current pref (refreshToggleButton current pref b) =
  refreshToggleButton current pref b.
Proof.
  destruct b as [[s|] [m|] [y|] l]; try reflexivity;
    unfold refreshToggleButton; simpl;
    destruct (String.eqb current THEMES.SYSTEM),
             (String.eqb current THEMES.DARK),
             (String.eqb current THEMES.LIGHT),
             (String.eqb pref THEMES.DARK); reflexivity.
Qed.

Lemma refreshToggleButton_one_shown (current pref : string) (b : ToggleButton) :
  is_Some (sunIcon b) → is_Some (moonIcon b) →
  List.filter (λ d, negb (String.eqb d "none"))
              (iconDisplays (refreshToggleButton current pref b)) = ["block"].
Proof.
  intros [s Hs] [m Hm]. destruct b as [s' m' [y|] l]; simpl in Hs, Hm; subst;
    unfold refreshToggleButton, iconDisplays; simpl;
    destruct (String.eqb current THEMES.SYSTEM),
             (String.eqb current THEMES.DARK),
             (String.eqb pref THEMES.DARK); reflexivity.
Qed.

(** X8: After [applyTheme], whatever its argument and the icons' previous state,
    every toggle button that has a sun and a moon icon shows exactly one of
    its icons, with [display: block], and hides the others with
    [display: none]. *)
Theorem toggle_shows_one_icon (theme : string) (w : World) (b : ToggleButton) :
  b ∈ toggleButtons (exec (applyTheme theme) w) →
  is_Some (sunIcon b) → is_Some (moonIcon b) →
  List.filter (λ d, negb (String.eqb d "none")) (iconDisplays b) = ["block"].
Proof.
  unfold exec. rewrite applyTheme_eq. simpl.
  intros (b0 & -> & _)%list_elem_of_fmap Hsun Hmoon.
  destruct (refreshToggleButton_complete _ _ _ Hsun Hmoon).
  by apply refreshToggleButton_one_shown.
Qed.

Lemma toggle_shows_one_icon_witness :
  let w := freshSession (mkStorage ∅ false false) None
             [mkToggleButton (Some "block") (Some "block") (Some "inline") None]
             None in
  let b := mkToggleButton (Some "none") (Some "block") (Some "none")
             (Some "Using dark theme, click to use system theme") in
  b ∈ toggleButtons (exec (applyTheme "dark") w) ∧
  List.filter (λ d, negb (String.eqb d "none")) (iconDisplays b) = ["block"].
Proof.
  intros w b.
  assert (Hb : b ∈ toggleButtons (exec (applyTheme "dark") w))
    by (vm_compute; constructor).
  split; [exact Hb|].
  apply (toggle_shows_one_icon "dark" w b Hb); by eexists.
Defined.

(** X9: [applyTheme] keeps the buttons in place and skips those lacking a sun or
    a moon icon: such a button keeps its icons' display and its [aria-label]
    exactly as they were. *)
Theorem toggle_without_icons_untouched (theme : string) (w : World)
    (i : nat) (b : ToggleButton) :
  toggleButtons w !! i = Some b →
  sunIcon b = None ∨ moonIcon b = None →
  toggleButtons (exec (applyTheme theme) w) !! i = Some b ∧
  length (toggleButtons (exec (applyTheme theme) w)) = length (toggleButtons w).
Proof.
  intros Hi Hb. unfold exec. rewrite applyTheme_eq. simpl.
  rewrite list_lookup_fmap, Hi, length_fmap. simpl.
  by rewrite refreshToggleButton_incomplete.
Qed.

Lemma toggle_without_icons_untouched_witness :
  let b := mkToggleButton (Some "inline") None (Some "inline") (Some "Theme") in
  let w := freshSession (mkStorage ∅ false false) None [b] None in
  toggleButtons (exec (applyTheme "dark") w) !! 0 = Some b.
Proof.
  intros b w.
  apply (toggle_without_icons_untouched "dark" w 0 b);
    [vm_compute; reflexivity | by right].
Defined.

(** X10: The label tells what the next click does: once [applyTheme(m)] has run
    for a mode name [m], every toggle button with a sun and a moon icon is
    labelled "Using m theme, click to use n theme", where [n] is the mode
    that [cycleTheme()] switches to from there. *)
Theorem toggle_label_announces_cycle (m : string) (w : World) (b : ToggleButton) :
  validMode m →
  let w' := exec (applyTheme m) w in
  b ∈ toggleButtons w' →
  is_Some (sunIcon b) → is_Some (moonIcon b) →
  ariaLabel b =
    Some ("Using " +:+ m +:+ " theme, click to use " +:+
          ThemeManager.getTheme (exec ThemeManager.cycleTheme w') +:+ " theme").
Proof.
  intros Hm w' Hb Hsun Hmoon.
  assert (Hcur : currentTheme w' = m) by apply applyTheme_currentTheme.
  destruct (cycleTheme_step w') as (Hs & Hl & Hd).
  unfold ThemeManager.getTheme.
  assert (Hlabel : ariaLabel b =
            Some (if String.eqb m THEMES.SYSTEM
                  then "Using system theme, click to use light theme"
                  else if String.eqb m THEMES.LIGHT
                  then "Using light theme, click to use dark theme"
                  else "Using dark theme, click to use system theme")).
  { revert Hb Hsun Hmoon. unfold w', exec. rewrite applyTheme_eq. simpl.
    intros (b0 & -> & _)%list_elem_of_fmap Hsun Hmoon.
    destruct (refreshToggleButton_complete _ _ _ Hsun Hmoon) as ([s Es] & [n En]).
    revert Hsun Hmoon. generalize (match matchMedia w with
                                   | Some mq => if matches mq then THEMES.DARK
                                                else THEMES.LIGHT
                                   | None => THEMES.LIGHT
                                   end).
    intros pref _ _. unfold refreshToggleButton. rewrite Es, En.
    by destruct (String.eqb m THEMES.SYSTEM), (systemIcon b0),
         (String.eqb pref THEMES.DARK), (String.eqb m THEMES.DARK). }
  rewrite Hlabel.
  destruct Hm as [-> | [-> | ->]].
  - by rewrite (Hs Hcur).
  - by rewrite (Hl Hcur).
  - by rewrite (Hd Hcur).
Qed.

Lemma toggle_label_announces_cycle_witness :
  let w := freshSession (mkStorage ∅ false false) None
             [mkToggleButton (Some "") (Some "") None None] None in
  let b := mkToggleButton (Some "block") (Some "none") None
             (Some "Using light theme, click to use dark theme") in
  b ∈ toggleButtons (exec (applyTheme "light") w) ∧
  ariaLabel b = Some "Using light theme, click to use dark theme".
Proof.
  intros w b.
  assert (Hb : b ∈ toggleButtons (exec (applyTheme "light") w))
    by (vm_compute; constructor).
  split; [exact Hb|].
  refine (toggle_label_announces_cycle "light" w b _ Hb _ _).
  - right; left; reflexivity.
  - by eexists.
  - by eexists.
Defined.

(** X11: Refreshing the icons is idempotent: a second [updateThemeToggleIcon]
    right after the first changes nothing. *)
Theorem updateThemeToggleIcon_idempotent (w : World) :
  updateThemeToggleIcon (exec updateThemeToggleIcon w) =
  (Normal tt, exec updateThemeToggleIcon w).
Proof.
  destruct w as [st mk cur bs ds cw mq cl].
  unfold exec, updateThemeToggleIcon, getSystemTheme, get, modify, mbind, M_bind.
  simpl. destruct mq as [[[] ha n]|]; simpl; f_equal; unfold set_toggleButtons;
    simpl; f_equal; rewrite <- list_fmap_compose; apply list_fmap_ext;
    intros; simpl; apply refreshToggleButton_idempotent.
Qed.

(** ** How the operations compose *)

(** X12: [cycleTheme()] is [setTheme] called with the next mode: in every state it
    leaves the store, the console, the page and the event trace exactly as
    [setTheme(n)] does, where [n] is ["light"] from ["system"], ["dark"] from
    ["light"] and ["system"] from anything else. *)
Theorem cycleTheme_is_setTheme (w : World) :
  ThemeManager.cycleTheme w =
  ThemeManager.setTheme
    (VString (if String.eqb (ThemeManager.getTheme w) THEMES.SYSTEM then THEMES.LIGHT
              else if String.eqb (ThemeManager.getTheme w) THEMES.LIGHT then THEMES.DARK
              else THEMES.SYSTEM)) w.
Proof.
  unfold ThemeManager.cycleTheme, ThemeManager.getTheme.
  rewrite cycleTheme_unfold. cbv zeta.
  destruct (String.eqb (currentTheme w) THEMES.SYSTEM); [done|].
  destruct (String.eqb (currentTheme w) THEMES.LIGHT); [done|].
  by destruct (String.eqb (currentTheme w) THEMES.DARK).
Qed.

(** X13: [setTheme] does not check whether the mode changes: called again with the
    mode name it has just set, it leaves the store, the marker, the mode and
    the buttons as they are, and dispatches the same [themeChange] once more. *)
Theorem setTheme_again (m : string) (w : World) :
  validMode m →
  let w1 := exec (ThemeManager.setTheme (VString m)) w in
  let w2 := exec (ThemeManager.setTheme (VString m)) w1 in
  localStorage w2 = localStorage w1 ∧
  dataTheme w2 = dataTheme w1 ∧
  ThemeManager.getTheme w2 = ThemeManager.getTheme w1 ∧
  toggleButtons w2 = toggleButtons w1 ∧
  ∃ old ev, dispatched w1 = old ++ [ev] ∧ dispatched w2 = old ++ [ev; ev].
Proof.
  intros Hm. cbv zeta. rewrite (setTheme_valid m Hm). unfold exec.
  rewrite !save_apply_eq, !applyTheme_eq. unfold exec. rewrite !saveTheme_eq.
  unfold ThemeManager.getTheme.
  destruct w as [[it ad qe] mk cur bs ds cw mq cl]. simpl.
  assert (Hbs : ∀ p,
            refreshToggleButton m p <$> (refreshToggleButton m p <$> bs)
            = refreshToggleButton m p <$> bs).
  { intros p. rewrite <- list_fmap_compose. apply list_fmap_ext.
    intros; simpl; apply refreshToggleButton_idempotent. }
  destruct ad, qe; simpl; rewrite ?insert_insert_eq;
    (split_and!; [done | done | done | apply Hbs |]);
    eexists _, _; (split; [reflexivity|]); by rewrite <- (assoc_L (++)).
Qed.

Lemma setTheme_again_witness :
  let w := freshSession (mkStorage ∅ false false) None [] None in
  let w1 := exec (ThemeManager.setTheme (VString "dark")) w in
  let w2 := exec (ThemeManager.setTheme (VString "dark")) w1 in
  localStorage w2 = localStorage w1 ∧ length (dispatched w2) = 2.
Proof.
  intros w w1 w2.
  assert (Hvalid : validMode "dark") by (right; right; reflexivity).
  split.
  - exact (proj1 (setTheme_again "dark" w Hvalid)).
  - vm_compute. reflexivity.
Defined.

(** ** Clicks *)

Lemma times_ret (n : nat) (w : World) : times n (mret tt) w = (Normal tt, w).
Proof. induction n as [|n IH]; [done|]. simpl. unfold mbind, M_bind. simpl. exact IH. Qed.

(** X14: A click outside every toggle button changes nothing, however many
    listeners are registered, and neither does a click whose target is not
    an element; with the one listener of a single [initTheme], a click on a
    toggle button is exactly one [cycleTheme()]. *)
Theorem documentClick_cycles (w : World) :
  documentClick (AnElement false) w = (Normal tt, w) ∧
  exec (documentClick NotAnElement) w = w ∧
  (clickListeners w = 1 →
   documentClick (AnElement true) w = ThemeManager.cycleTheme w).
Proof.
  split_and!.
  - unfold documentClick, get. unfold mbind at 1, M_bind at 1. apply times_ret.
  - unfold exec. by rewrite documentClick_not_element.
  - unfold documentClick, get. unfold mbind at 1, M_bind at 1.
    intros ->. simpl. unfold ThemeManager.cycleTheme, mbind, M_bind.
    destruct (cycleTheme_next w) as (n & _ & ->).
    by destruct (save_then_apply_currentTheme n w) as (-> & _).
Qed.

Lemma documentClick_cycles_witness :
  let w := exec initTheme (freshSession (mkStorage ∅ false false) None [] None) in
  documentClick (AnElement true) w = ThemeManager.cycleTheme w.
Proof.
  intros w. apply (proj2 (proj2 (documentClick_cycles w))).
  vm_compute. reflexivity.
Defined.

(** ** The OS appearance signal, for any number of listeners *)

Lemma times_onSystemThemeChange_system (n : nat) (w : World) :
  currentTheme w = THEMES.SYSTEM →
  times n onSystemThemeChange w =
  (Normal tt,
   match n with
   | O => w
   | S _ =>
       mkWorld (localStorage w) None THEMES.SYSTEM
         (refreshToggleButton THEMES.SYSTEM
            (match matchMedia w with
             | Some mq => if matches mq then THEMES.DARK else THEMES.LIGHT
             | None => THEMES.LIGHT
             end) <$> toggleButtons w)
         (dispatched w ++
          replicate n (mkDispatch "themeChange" THEMES.SYSTEM THEMES.SYSTEM None))
         (consoleWarnings w) (matchMedia w) (clickListeners w)
   end).
Proof.
  revert w. induction n as [|n IH]; intros w Hs; [done|].
  change (times (S n) onSystemThemeChange)
    with (onSystemThemeChange;; times n onSystemThemeChange).
  unfold mbind, M_bind.
  rewrite (onSystemThemeChange_system w Hs), applyTheme_eq. cbv zeta.
  change (String.eqb THEMES.SYSTEM THEMES.SYSTEM) with true. cbv iota.
  rewrite IH by done. simpl. f_equal.
  destruct n as [|n]; [done|]. f_equal.
  - rewrite <- list_fmap_compose. apply list_fmap_ext.
    intros; simpl; apply refreshToggleButton_idempotent.
  - by rewrite <- (assoc_L (++)).
Qed.

(** X15: In mode ["system"], a change of the OS appearance signal dispatches one
    [themeChange] with theme ["system"] per registered [change] listener (none
    where [initTheme] could not subscribe, two after two [initTheme] calls),
    and the mode stays ["system"]. *)
Theorem osAppearanceChange_per_listener (prefersDark : bool) (w : World)
    (mq : MediaQueryList) :
  matchMedia w = Some mq →
  ThemeManager.getTheme w = THEMES.SYSTEM →
  let w' := exec (osAppearanceChange prefersDark) w in
  dispatched w' =
    dispatched w ++
    replicate (changeListeners mq)
              (mkDispatch "themeChange" THEMES.SYSTEM THEMES.SYSTEM None) ∧
  ThemeManager.getTheme w' = THEMES.SYSTEM.
Proof.
  unfold ThemeManager.getTheme. intros Hmq Hs. cbv zeta. unfold exec.
  rewrite osAppearanceChange_unfold, Hmq.
  rewrite times_onSystemThemeChange_system by done.
  destruct (changeListeners mq); simpl; [|done].
  by rewrite (right_id_L [] (++)).
Qed.

Lemma osAppearanceChange_per_listener_witness :
  let w := exec initTheme
             (exec initTheme
                (freshSession (mkStorage ∅ false false) None []
                              (Some (mkMediaQueryList false true 0)))) in
  length (dispatched (exec (osAppearanceChange true) w)) = 4.
Proof.
  intros w.
  assert (Hmq : matchMedia w = Some (mkMediaQueryList false true 2))
    by (vm_compute; reflexivity).
  assert (Hsys : ThemeManager.getTheme w = THEMES.SYSTEM)
    by (vm_compute; reflexivity).
  rewrite (proj1 (osAppearanceChange_per_listener true w _ Hmq Hsys)).
  vm_compute. reflexivity.
Defined.

(** X16: In mode ["system"], with the listener of [initTheme] registered, a toggle
    button that has a sun and a moon icon but no system icon follows the OS
    signal: after a change it shows the moon when the OS prefers dark and the
    sun otherwise. *)
Theorem fallback_icon_follows_signal (prefersDark : bool) (w : World)
    (mq : MediaQueryList) (b : ToggleButton) :
  matchMedia w = Some mq → changeListeners mq = 1 →
  ThemeManager.getTheme w = THEMES.SYSTEM →
  b ∈ toggleButtons (exec (osAppearanceChange prefersDark) w) →
  is_Some (sunIcon b) → is_Some (moonIcon b) → systemIcon b = None →
  sunIcon b = Some (if prefersDark then "none" else "block") ∧
  moonIcon b = Some (if prefersDark then "block" else "none").
Proof.
  unfold ThemeManager.getTheme. intros Hmq Hn Hs. unfold exec.
  rewrite osAppearanceChange_unfold, Hmq, Hn.
  rewrite times_onSystemThemeChange_system by done. simpl.
  intros (b0 & -> & _)%list_elem_of_fmap Hsun Hmoon.
  destruct (refreshToggleButton_complete _ _ _ Hsun Hmoon) as ([s Es] & [n En]).
  unfold refreshToggleButton. rewrite Es, En. simpl.
  destruct (systemIcon b0); [discriminate|]. intros _.
  by destruct prefersDark.
Qed.

Lemma fallback_icon_follows_signal_witness :
  let w := exec initTheme
             (freshSession (mkStorage ∅ false false) None
                           [mkToggleButton (Some "") (Some "") None None]
                           (Some (mkMediaQueryList false true 0))) in
  let b := mkToggleButton (Some "none") (Some "block") None
             (Some "Using system theme, click to use light theme") in
  b ∈ toggleButtons (exec (osAppearanceChange true) w) ∧
  moonIcon b = Some "block".
Proof.
  intros w b.
  assert (Hb : b ∈ toggleButtons (exec (osAppearanceChange true) w))
    by (vm_compute; constructor).
  assert (Hmq : matchMedia w = Some (mkMediaQueryList false true 1))
    by (vm_compute; reflexivity).
  assert (Hsys : ThemeManager.getTheme w = THEMES.SYSTEM)
    by (vm_compute; reflexivity).
  split; [exact Hb|].
  refine (proj2 (fallback_icon_follows_signal true w _ b Hmq eq_refl Hsys
                   Hb _ _ eq_refl)); by eexists.
Defined.

(** * The contact form *)




Lemma matchAtoms_denotes (atoms : list ContactForm.Atom) (s : list N) :
  ContactForm.matchAtoms atoms s = true ↔ ContactForm.denotes atoms s.
Proof.
  revert s. induction atoms as [|[class | class] rest IH]; intros s.
  - destruct s; simpl; split; done.
  - simpl. destruct s as [|c s'].
    + split; [done | by intros (? & ? & ? & _)].
    + rewrite andb_true_iff, IH. split.
      * intros [Hc Hr]. by exists c, s'.
      * intros (c' & s'' & [= -> ->] & Hc & Hr). by split.
  - change (ContactForm.denotes (ContactForm.OneOrMore class :: rest) s)
      with (∃ a b, s = a ++ b ∧ a ≠ [] ∧ Forall (λ c, class c = true) a ∧
                   ContactForm.denotes rest b).
    induction s as [|c s' IHs].
    + simpl. split; [done|]. intros (a & b & Hs & Ha & _).
      symmetry in Hs. by apply app_eq_nil in Hs as [-> _].
    + simpl in *. rewrite andb_true_iff, orb_true_iff, IHs, IH. split.
      * intros [Hc [(a & b & -> & _ & Ha & Hb) | Hr]].
        -- exists (c :: a), b. split_and!; [done | done | by constructor | done].
        -- exists [c], s'. split_and!; [done | done | by repeat constructor | done].
      * intros (a & b & Hs & Hne & Ha & Hb).
        destruct a as [|c' a]; [done|]. simpl in Hs. injection Hs as -> ->.
        apply Forall_cons in Ha as [Hc Ha]. split; [done|].
        destruct a as [|c'' a]; [by right|].
        left. exists (c'' :: a), b. by split_and!.
Qed.

(** X17: [isValidEmail] accepts exactly the strings of the form local@domain.tld
    in which the three parts are non-empty and contain neither white space
    nor ["@"] (the domain and the other parts may contain further dots). *)
Theorem isValidEmail_shape (email : list N) :
  ContactForm.isValidEmail email = true ↔
  ∃ loc domain tld,
    email = loc ++ [64%N] ++ domain ++ [46%N] ++ tld ∧
    loc ≠ [] ∧ domain ≠ [] ∧ tld ≠ [] ∧
    Forall (λ c, ContactForm.isWhiteSpace c = false ∧ c ≠ 64%N)
           (loc ++ domain ++ tld).
Proof.
  assert (Hclass : ∀ l : list N,
            Forall (λ c, ContactForm.notSpaceOrAt c = true) l ↔
            Forall (λ c, ContactForm.isWhiteSpace c = false ∧ c ≠ 64%N) l).
  { intros l. apply Forall_proper; [|done]. intros c.
    unfold ContactForm.notSpaceOrAt.
    rewrite negb_true_iff, orb_false_iff, N.eqb_neq. done. }
  unfold ContactForm.isValidEmail. rewrite matchAtoms_denotes.
  unfold ContactForm.emailPattern. cbn [ContactForm.denotes]. split.
  - intros (a & b & -> & Ha & Fa & c1 & s1 & -> & E1 & a2 & b2 & -> & Ha2 & Fa2 &
            c2 & s2 & -> & E2 & a3 & b3 & -> & Ha3 & Fa3 & ->).
    apply N.eqb_eq in E1, E2. subst c1 c2.
    exists a, a2, a3. rewrite (right_id_L [] (++)).
    split_and!; try done.
    rewrite !Forall_app. by rewrite <- !Hclass.
  - intros (a & a2 & a3 & -> & Ha & Ha2 & Ha3 & Hall).
    rewrite !Forall_app, <- !Hclass in Hall. destruct Hall as (Fa & Fa2 & Fa3).
    exists a, (64%N :: a2 ++ 46%N :: a3). split_and!; try done.
    exists 64%N, (a2 ++ 46%N :: a3). split_and!; try done.
    exists a2, (46%N :: a3). split_and!; try done.
    exists 46%N, a3. split_and!; try done.
    exists a3, []. by rewrite (right_id_L [] (++)).
Qed.

Lemma filter_at_none (l : list N) :
  Forall (λ c, ContactForm.isWhiteSpace c = false ∧ c ≠ 64%N) l →
  filter (λ c, c = 64%N) l = [].
Proof.
  induction 1 as [|c l [_ Hc] _ IH]; [done|].
  by rewrite filter_cons_False.
Qed.

(** X18: An accepted address has no white space anywhere and exactly one ["@"],
    and is at least five code units long. *)
Theorem isValidEmail_necessary (email : list N) :
  ContactForm.isValidEmail email = true →
  Forall (λ c, ContactForm.isWhiteSpace c = false) email ∧
  length (filter (λ c, c = 64%N) email) = 1 ∧
  (5 ≤ length email)%nat.
Proof.
  intros (loc & domain & tld & -> & Hl & Hd & Ht & Hall)%isValidEmail_shape.
  apply Forall_app in Hall as [Fl Hall]. apply Forall_app in Hall as [Fd Ft].
  split_and!.
  - rewrite !Forall_app. split_and!;
      try (eapply Forall_impl; [eassumption | by intros ? [? _]]);
      by repeat constructor.
  - rewrite !filter_app, !(filter_at_none _ Fl), !(filter_at_none _ Fd),
      !(filter_at_none _ Ft). reflexivity.
  - rewrite !length_app. simpl.
    destruct loc, domain, tld; simpl; try done; lia.
Qed.

Lemma isValidEmail_necessary_witness :
  ContactForm.isValidEmail (ContactForm.units "momoh@example.com") = true ∧
  length (filter (λ c, c = 64%N) (ContactForm.units "momoh@example.com")) = 1.
Proof.
  assert (H : ContactForm.isValidEmail (ContactForm.units "momoh@example.com") = true)
    by (vm_compute; reflexivity).
  split; [exact H|].
  exact (proj1 (proj2 (isValidEmail_necessary _ H))).
Defined.



Lemma showError_eq (fieldName message : string) (form : ContactForm.Form) :
  ContactForm.showError fieldName message form =
  ContactForm.mkForm
    (ContactForm.fieldNames form)
    (ContactForm.errorSpans form ++
     if bool_decide (fieldName ∈ ContactForm.fieldNames form)
     then [(fieldName, message)] else [])
    ((if bool_decide (fieldName ∈ ContactForm.fieldNames form)
      then {[fieldName]} else ∅) ∪ ContactForm.ariaInvalid form).
Proof.
  destruct form as [names spans marks]. unfold ContactForm.showError.
  cbn [ContactForm.fieldNames ContactForm.errorSpans ContactForm.ariaInvalid].
  case_bool_decide; f_equal.
  - by rewrite (right_id_L [] (++)).
  - by rewrite (left_id_L ∅ (∪)).
Qed.

(** [validate] in closed form: the result, the messages shown and the marks
    added, from which fields fail and which of them the form has. *)
Lemma validate_eq (data : gmap string (list N)) (form : ContactForm.Form) :
  let shown (fails : bool) (fieldName message : string) :=
    if fails && bool_decide (fieldName ∈ ContactForm.fieldNames form)
    then [(fieldName, message)] else [] in
  let marked (fails : bool) (fieldName : string) : gset string :=
    if fails && bool_decide (fieldName ∈ ContactForm.fieldNames form)
    then {[fieldName]} else ∅ in
  let failsName := ContactForm.missingOrBlank (data !! "name") in
  let failsEmail := ContactForm.missingOrNotEmail (data !! "email") in
  let failsMessage := ContactForm.missingOrBlank (data !! "message") in
  ContactForm.validate data (Some form) =
  (Normal (negb failsName && negb failsEmail && negb failsMessage),
   Some (ContactForm.mkForm
     (ContactForm.fieldNames form)
     (shown failsName "name" "Name is required" ++
      shown failsEmail "email" "Valid email is required" ++
      shown failsMessage "message" "Message is required")
     (marked failsMessage "message" ∪
      (marked failsEmail "email" ∪
       (marked failsName "name" ∪ ContactForm.ariaInvalid form))))).
Proof.
  cbv zeta. unfold ContactForm.validate.
  destruct (ContactForm.missingOrBlank (data !! "name")),
           (ContactForm.missingOrNotEmail (data !! "email")),
           (ContactForm.missingOrBlank (data !! "message"));
    cbv beta iota zeta; rewrite ?showError_eq;
    cbn [ContactForm.fieldNames ContactForm.errorSpans ContactForm.ariaInvalid
         andb negb app];
    rewrite ?(left_id_L ∅ (∪)), ?(right_id_L [] (++)), <- ?(assoc_L (++));
    reflexivity.
Qed.




(** X21: [validate] starts from a clean slate: whatever messages the form showed
    before, validating the same data twice leaves the same result and the
    same form as validating it once (and while [this.form] is [null] it
    throws both times). *)
Theorem validate_idempotent (data : gmap string (list N))
    (form : option ContactForm.Form) :
  ContactForm.validate data (ContactForm.validate data form).2 =
  ContactForm.validate data form.
Proof.
  destruct form as [form|]; [|reflexivity].
  rewrite (validate_eq data form). cbv zeta. cbn [snd].
  rewrite validate_eq. cbv zeta.
  cbn [ContactForm.fieldNames ContactForm.ariaInvalid].
  f_equal. f_equal. f_equal.
  generalize (if ContactForm.missingOrBlank (data !! "message") &&
                 bool_decide ("message" ∈ ContactForm.fieldNames form)
              then {["message"]} else ∅ : gset string).
  generalize (if ContactForm.missingOrNotEmail (data !! "email") &&
                 bool_decide ("email" ∈ ContactForm.fieldNames form)
              then {["email"]} else ∅ : gset string).
  generalize (if ContactForm.missingOrBlank (data !! "name") &&
                 bool_decide ("name" ∈ ContactForm.fieldNames form)
              then {["name"]} else ∅ : gset string).
  intros m1 m2 m3. apply set_eq. intros x. rewrite !elem_of_union. tauto.
Qed.



(** * The mobile navigation *)

Lemma openMenu_ready (st : MobileNav.State) :
  MobileNav.ready st →
  MobileNav.openMenu st =
  (MobileNav.Returned,
   MobileNav.mkState
     ((λ _, Some "true") <$> MobileNav.pageToggle st)
     ((λ cl, {["mobile-nav--open"]} ∪ cl) <$> MobileNav.pageNav st)
     "hidden" true true true (MobileNav.listeners st)).
Proof.
  destruct st as [pt pn ov tg nv op ls]. intros (Ht & Hn & _). simpl in Ht, Hn.
  by subst.
Qed.

Lemma closeMenu_ready (st : MobileNav.State) :
  MobileNav.ready st →
  MobileNav.closeMenu st =
  (MobileNav.Returned,
   MobileNav.mkState
     ((λ _, Some "false") <$> MobileNav.pageToggle st)
     ((λ cl, cl ∖ {["mobile-nav--open"]}) <$> MobileNav.pageNav st)
     "" true true false (MobileNav.listeners st)).
Proof.
  destruct st as [pt pn ov tg nv op ls]. intros (Ht & Hn & _). simpl in Ht, Hn.
  by subst.
Qed.

Lemma openMenu_settled (st0 st : MobileNav.State) :
  MobileNav.settled st0 st →
  (MobileNav.openMenu st).1 = MobileNav.Returned ∧
  MobileNav.settled st0 (MobileNav.openMenu st).2 ∧
  MobileNav.agrees (MobileNav.openMenu st).2.
Proof.
  intros (Hr & Hl & _). rewrite (openMenu_ready st Hr).
  destruct Hr as (Ht & Hn & [pt Hpt] & [pn Hpn]).
  assert (Ha : MobileNav.agrees
            (MobileNav.mkState ((λ _, Some "true") <$> MobileNav.pageToggle st)
               ((λ cl, {["mobile-nav--open"]} ∪ cl) <$> MobileNav.pageNav st)
               "hidden" true true true (MobileNav.listeners st))).
  { unfold MobileNav.agrees. simpl. rewrite Hpt, Hpn. simpl. split_and!; try done.
    exists ({["mobile-nav--open"]} ∪ pn). split; [reflexivity|].
    split; [reflexivity | intros _; set_solver]. }
  split; [done|]. split; [|done].
  unfold MobileNav.settled. split_and!; [|done|by right].
  unfold MobileNav.ready. simpl. rewrite Hpt, Hpn. simpl.
  split_and!; try done; by eexists.
Qed.

Lemma closeMenu_settled (st0 st : MobileNav.State) :
  MobileNav.settled st0 st →
  (MobileNav.closeMenu st).1 = MobileNav.Returned ∧
  MobileNav.settled st0 (MobileNav.closeMenu st).2 ∧
  MobileNav.agrees (MobileNav.closeMenu st).2 ∧
  MobileNav.isOpen (MobileNav.closeMenu st).2 = false.
Proof.
  intros (Hr & Hl & _). rewrite (closeMenu_ready st Hr).
  destruct Hr as (Ht & Hn & [pt Hpt] & [pn Hpn]).
  assert (Ha : MobileNav.agrees
            (MobileNav.mkState ((λ _, Some "false") <$> MobileNav.pageToggle st)
               ((λ cl, cl ∖ {["mobile-nav--open"]}) <$> MobileNav.pageNav st)
               "" true true false (MobileNav.listeners st))).
  { unfold MobileNav.agrees. simpl. rewrite Hpt, Hpn. simpl. split_and!; try done.
    exists (pn ∖ {["mobile-nav--open"]}). split; [reflexivity|].
    split; [|done]. intros [_ Hnot]%elem_of_difference.
    exfalso. apply Hnot. by apply elem_of_singleton. }
  split; [done|]. split; [|done].
  unfold MobileNav.settled. split_and!; [|done|by right].
  unfold MobileNav.ready. simpl. rewrite Hpt, Hpn. simpl.
  split_and!; try done; by eexists.
Qed.

Lemma listener_settled (e : MobileNav.Event) (st0 st : MobileNav.State) :
  MobileNav.settled st0 st →
  (MobileNav.listener e st).1 = MobileNav.Returned ∧
  MobileNav.settled st0 (MobileNav.listener e st).2.
Proof.
  intros Hs. destruct e as [| |key|inNav inToggle]; simpl.
  - unfold MobileNav.toggleMenu. destruct (MobileNav.isOpen st).
    + by destruct (closeMenu_settled st0 st Hs) as (? & ? & _).
    + by destruct (openMenu_settled st0 st Hs) as (? & ? & _).
  - by destruct (closeMenu_settled st0 st Hs) as (? & ? & _).
  - destruct (String.eqb key "Escape" && MobileNav.isOpen st); [|done].
    by destruct (closeMenu_settled st0 st Hs) as (? & ? & _).
  - destruct (MobileNav.isOpen st && negb inNav && negb inToggle); [|done].
    by destruct (closeMenu_settled st0 st Hs) as (? & ? & _).
Qed.

Lemma repeatedly_settled (n : nat) (m : MobileNav.Method)
    (st0 st : MobileNav.State) :
  (∀ u, MobileNav.settled st0 u → (m u).1 = MobileNav.Returned ∧ MobileNav.settled st0 (m u).2) →
  MobileNav.settled st0 st →
  (MobileNav.repeatedly n m st).1 = MobileNav.Returned ∧
  MobileNav.settled st0 (MobileNav.repeatedly n m st).2.
Proof.
  intros Hm. revert st. induction n as [|n IH]; intros st Hs; [done|].
  simpl. unfold MobileNav.andThen.
  destruct (Hm st Hs) as (Hret & Hs'). destruct (m st) as [[] st'];
    simpl in *; [|done]. by apply IH.
Qed.

Lemma deliverAll_settled (es : list MobileNav.Event) (st0 st : MobileNav.State) :
  MobileNav.settled st0 st →
  (MobileNav.deliverAll es st).1 = MobileNav.Returned ∧
  MobileNav.settled st0 (MobileNav.deliverAll es st).2.
Proof.
  revert st. induction es as [|e es IH]; intros st Hs; [done|].
  simpl. unfold MobileNav.andThen, MobileNav.deliver.
  destruct (repeatedly_settled (MobileNav.listeners st) (MobileNav.listener e)
              st0 st (listener_settled e st0) Hs) as (Hret & Hs').
  destruct (MobileNav.repeatedly _ _ st) as [[] st']; simpl in *; [|done].
  by apply IH.
Qed.

(** X23: From page load, [init] followed by any clicks and key presses never
    throws, whether the page has the two elements or not; and as soon as the
    menu has been touched, the [mobile-nav--open] class, [aria-expanded] and
    the body's scroll lock all agree with [isOpen]. *)
Theorem mobileNav_consistent (pageToggle : option (option string))
    (pageNav : option (gset string)) (bodyOverflow : string)
    (es : list MobileNav.Event) :
  let st0 := (MobileNav.init
                (MobileNav.pageLoad pageToggle pageNav bodyOverflow)).2 in
  let run := MobileNav.andThen MobileNav.init (MobileNav.deliverAll es)
               (MobileNav.pageLoad pageToggle pageNav bodyOverflow) in
  run.1 = MobileNav.Returned ∧ (run.2 = st0 ∨ MobileNav.agrees run.2).
Proof.
  cbv zeta. unfold MobileNav.andThen.
  destruct pageToggle as [pt|], pageNav as [pn|].
  - change (MobileNav.init (MobileNav.pageLoad (Some pt) (Some pn) bodyOverflow))
      with (MobileNav.Returned,
            MobileNav.mkState (Some pt) (Some pn) bodyOverflow true true false 1).
    cbv beta iota. simpl snd.
    set (st0 := MobileNav.mkState _ _ _ _ _ _ _).
    assert (Hs : MobileNav.settled st0 st0).
    { unfold MobileNav.settled, MobileNav.ready. simpl.
      split_and!; try done; try (by eexists); by left. }
    destruct (deliverAll_settled es st0 st0 Hs) as (Hret & _ & _ & Hfin).
    by split.
  - change (MobileNav.init (MobileNav.pageLoad (Some pt) None bodyOverflow))
      with (MobileNav.Returned,
            MobileNav.mkState (Some pt) None bodyOverflow true false false 0).
    cbv beta iota. simpl snd. induction es as [|e es IH]; [by split; [|left]|].
    exact IH.
  - change (MobileNav.init (MobileNav.pageLoad None (Some pn) bodyOverflow))
      with (MobileNav.Returned,
            MobileNav.mkState None (Some pn) bodyOverflow false true false 0).
    cbv beta iota. simpl snd. induction es as [|e es IH]; [by split; [|left]|].
    exact IH.
  - change (MobileNav.init (MobileNav.pageLoad None None bodyOverflow))
      with (MobileNav.Returned,
            MobileNav.mkState None None bodyOverflow false false false 0).
    cbv beta iota. simpl snd. induction es as [|e es IH]; [by split; [|left]|].
    exact IH.
Qed.

Lemma listener_keeps_closed (e : MobileNav.Event) (st0 u : MobileNav.State) :
  e ≠ MobileNav.ToggleClicked →
  MobileNav.settled st0 u ∧ MobileNav.isOpen u = false →
  (MobileNav.listener e u).1 = MobileNav.Returned ∧
  MobileNav.settled st0 (MobileNav.listener e u).2 ∧
  MobileNav.isOpen (MobileNav.listener e u).2 = false.
Proof.
  intros He (Hs & Hc).
  destruct (closeMenu_settled st0 u Hs) as (Hr & Hs' & _ & Hc').
  destruct e as [| |key|inNav inToggle]; simpl; [done|done| |].
  - by destruct (String.eqb key "Escape" && MobileNav.isOpen u).
  - by destruct (MobileNav.isOpen u && negb inNav && negb inToggle).
Qed.

Lemma repeatedly_keeps_closed (e : MobileNav.Event) (n : nat)
    (st0 u : MobileNav.State) :
  e ≠ MobileNav.ToggleClicked →
  MobileNav.settled st0 u ∧ MobileNav.isOpen u = false →
  (MobileNav.repeatedly n (MobileNav.listener e) u).1 = MobileNav.Returned ∧
  MobileNav.settled st0 (MobileNav.repeatedly n (MobileNav.listener e) u).2 ∧
  MobileNav.isOpen (MobileNav.repeatedly n (MobileNav.listener e) u).2 = false.
Proof.
  intros He. revert u. induction n as [|n IH]; intros u Hu; [by destruct Hu|].
  simpl. unfold MobileNav.andThen.
  destruct (listener_keeps_closed e st0 u He Hu) as (Hr & Hs' & Hc').
  destruct (MobileNav.listener e u) as [[] u']; simpl in *; [|done].
  by apply IH.
Qed.

(** X24: Only the toggle button opens the menu: from a closed, ready menu, no
    sequence of link clicks, key presses and document clicks opens it,
    however many listeners are registered. *)
Theorem mobileNav_only_toggle_opens (st : MobileNav.State)
    (es : list MobileNav.Event) :
  MobileNav.ready st → MobileNav.isOpen st = false →
  MobileNav.ToggleClicked ∉ es →
  (MobileNav.deliverAll es st).1 = MobileNav.Returned ∧
  MobileNav.isOpen (MobileNav.deliverAll es st).2 = false.
Proof.
  intros Hready Hclosed Hno.
  assert (Hall : ∀ u, MobileNav.settled st u ∧ MobileNav.isOpen u = false →
             (MobileNav.deliverAll es u).1 = MobileNav.Returned ∧
             MobileNav.isOpen (MobileNav.deliverAll es u).2 = false).
  { clear Hready Hclosed.
    induction es as [|e es IH]; intros u Hu; [by destruct Hu|].
    apply not_elem_of_cons in Hno as [He Hno].
    simpl. unfold MobileNav.andThen, MobileNav.deliver.
    destruct (repeatedly_keeps_closed e (MobileNav.listeners u) st u
                (not_eq_sym He) Hu) as (Hr & Hs' & Hc').
    destruct (MobileNav.repeatedly _ _ u) as [[] u']; simpl in *; [|done].
    by apply IH. }
  apply Hall. split; [|done].
  unfold MobileNav.settled. split_and!; [done | done | by left].
Qed.

Lemma mobileNav_only_toggle_opens_witness :
  let st := (MobileNav.init
               (MobileNav.pageLoad (Some None) (Some {["mobile-nav"]}) "")).2 in
  MobileNav.isOpen
    (MobileNav.deliverAll
       [MobileNav.LinkClicked; MobileNav.KeyDown "Escape";
        MobileNav.DocumentClicked false false] st).2 = false.
Proof.
  intros st.
  refine (proj2 (mobileNav_only_toggle_opens st _ _ _ _)).
  - unfold MobileNav.ready. split_and!; [reflexivity | reflexivity | by eexists | by eexists].
  - reflexivity.
  - intros H. repeat (apply elem_of_cons in H as [H | H]; [discriminate H|]).
    by apply elem_of_nil in H.
Defined.

(** X25: Toggling twice is the identity: in a ready menu whose page agrees with
    [isOpen], two [toggleMenu()] calls return and leave the object and the
    page exactly as they were. *)
Theorem mobileNav_toggle_twice (st : MobileNav.State) :
  MobileNav.ready st → MobileNav.agrees st →
  MobileNav.andThen MobileNav.toggleMenu MobileNav.toggleMenu st =
  (MobileNav.Returned, st).
Proof.
  intros Hr Ha. unfold MobileNav.andThen, MobileNav.toggleMenu.
  destruct (MobileNav.isOpen st) eqn:Hop.
  - rewrite (closeMenu_ready st Hr). cbn [MobileNav.isOpen].
    rewrite openMenu_ready.
    2:{ destruct Hr as (? & ? & [? Hpt] & [? Hpn]). unfold MobileNav.ready.
        simpl. rewrite Hpt, Hpn. split_and!; try done; by eexists. }
    destruct st as [pt pn ov tg nv op ls].
    destruct Hr as (Ht & Hn & _ & _). destruct Ha as ((cl & Hcl & Hin) & Hpt & Hov).
    simpl in *. subst. simpl. do 3 f_equal.
    apply set_eq. intros x. rewrite elem_of_union, elem_of_difference,
      elem_of_singleton.
    split; [|by destruct (decide (x = "mobile-nav--open")); auto].
    intros [-> | [? _]]; [by apply Hin | done].
  - rewrite (openMenu_ready st Hr). cbn [MobileNav.isOpen].
    rewrite closeMenu_ready.
    2:{ destruct Hr as (? & ? & [? Hpt] & [? Hpn]). unfold MobileNav.ready.
        simpl. rewrite Hpt, Hpn. split_and!; try done; by eexists. }
    destruct st as [pt pn ov tg nv op ls].
    destruct Hr as (Ht & Hn & _ & _). destruct Ha as ((cl & Hcl & Hin) & Hpt & Hov).
    simpl in *. subst. simpl. do 3 f_equal.
    apply set_eq. intros x. rewrite elem_of_difference, elem_of_union,
      elem_of_singleton. split; [by intros [[? | ?] ?]|].
    intros Hx. split; [by right|]. intros ->. by apply Hin in Hx.
Qed.

Lemma mobileNav_toggle_twice_witness :
  let st := (MobileNav.init
               (MobileNav.pageLoad (Some (Some "false")) (Some {["mobile-nav"]}) "")).2 in
  MobileNav.andThen MobileNav.toggleMenu MobileNav.toggleMenu st =
  (MobileNav.Returned, st).
Proof.
  intros st. apply mobileNav_toggle_twice.
  - unfold MobileNav.ready. split_and!; [reflexivity | reflexivity | by eexists | by eexists].
  - unfold MobileNav.agrees. split_and!; [|reflexivity|reflexivity].
    exists {["mobile-nav"]}. split; [reflexivity|].
    split; [|done]. intros H%elem_of_singleton. discriminate H.
Defined.

(** X26: A method called on the object while [this.nav] is still [null] (before
    [init], or on a page without the menu) throws a [TypeError] after it has
    already flipped [isOpen]: the flag changes and nothing else does. *)
Theorem mobileNav_toggle_without_nav (st : MobileNav.State) :
  MobileNav.nav st = false →
  (MobileNav.toggleMenu st).1 = MobileNav.ThrewTypeError ∧
  MobileNav.isOpen (MobileNav.toggleMenu st).2 = negb (MobileNav.isOpen st) ∧
  MobileNav.pageNav (MobileNav.toggleMenu st).2 = MobileNav.pageNav st ∧
  MobileNav.pageToggle (MobileNav.toggleMenu st).2 = MobileNav.pageToggle st ∧
  MobileNav.bodyOverflow (MobileNav.toggleMenu st).2 = MobileNav.bodyOverflow st.
Proof.
  destruct st as [pt pn ov tg nv op ls]. simpl. intros ->.
  by destruct op.
Qed.

Lemma mobileNav_toggle_without_nav_witness :
  (MobileNav.toggleMenu (MobileNav.pageLoad None None "")).1
  = MobileNav.ThrewTypeError.
Proof.
  exact (proj1 (mobileNav_toggle_without_nav
                  (MobileNav.pageLoad None None "") eq_refl)).
Defined.

(** X27: Every way of dismissing closes the menu: in a ready menu with at least
    one listener registered, a click on a menu link, the Escape key, or a
    click outside both the menu and the toggle leaves the menu closed; if it
    was open, the class, [aria-expanded] and the scroll lock are reset with
    it. *)
Theorem mobileNav_dismiss (e : MobileNav.Event) (st : MobileNav.State) :
  MobileNav.ready st → (0 < MobileNav.listeners st)%nat →
  e = MobileNav.LinkClicked ∨ e = MobileNav.KeyDown "Escape" ∨
  e = MobileNav.DocumentClicked false false →
  (MobileNav.deliver e st).1 = MobileNav.Returned ∧
  MobileNav.isOpen (MobileNav.deliver e st).2 = false ∧
  (MobileNav.isOpen st = true → MobileNav.agrees (MobileNav.deliver e st).2).
Proof.
  intros Hready Hpos He. unfold MobileNav.deliver.
  destruct (MobileNav.listeners st) as [|n]; [lia|].
  assert (Hne : e ≠ MobileNav.ToggleClicked) by (by destruct He as [-> | [-> | ->]]).
  assert (Hs : MobileNav.settled st st).
  { unfold MobileNav.settled. split_and!; [done | done | by left]. }
  destruct (closeMenu_settled st st Hs) as (Hr & Hs' & Ha' & Hc').
  assert (Hfirst : (MobileNav.listener e st).1 = MobileNav.Returned ∧
                   MobileNav.settled st (MobileNav.listener e st).2 ∧
                   MobileNav.isOpen (MobileNav.listener e st).2 = false ∧
                   (MobileNav.isOpen st = true →
                    MobileNav.agrees (MobileNav.listener e st).2)).
  { destruct (MobileNav.isOpen st) eqn:Hop.
    - destruct He as [-> | [-> | ->]]; simpl; rewrite ?Hop; simpl; done.
    - destruct (listener_keeps_closed e st st Hne (conj Hs Hop)) as (? & ? & ?).
      done. }
  destruct Hfirst as (Hr1 & Hs1 & Hc1 & Ha1).
  simpl. unfold MobileNav.andThen.
  destruct (MobileNav.listener e st) as [[] u] eqn:Hl; simpl in *; [|done].
  destruct (repeatedly_keeps_closed e n st u Hne (conj Hs1 Hc1)) as (Hr2 & Hs2 & Hc2).
  split_and!; [done | done |]. intros Hop.
  destruct Hs2 as (_ & _ & [Heq | Hag]); [|done].
  rewrite Heq in Hc2. congruence.
Qed.

Lemma mobileNav_dismiss_witness :
  let st := (MobileNav.andThen MobileNav.init MobileNav.toggleMenu
               (MobileNav.pageLoad (Some None) (Some ∅) "")).2 in
  MobileNav.isOpen (MobileNav.deliver (MobileNav.KeyDown "Escape") st).2 = false.
Proof.
  intros st.
  refine (proj1 (proj2 (mobileNav_dismiss (MobileNav.KeyDown "Escape") st _ _ _))).
  - unfold MobileNav.ready. split_and!; [reflexivity | reflexivity | by eexists | by eexists].
  - vm_compute. lia.
  - right; left; reflexivity.
Defined.

(** * The active navigation link *)

Lemma split_nonempty (sep : N) (s : list N) : ActiveNav.split sep s ≠ [].
Proof.
  destruct s as [|c r]; simpl; [done|].
  destruct (c =? sep)%N; [done|]. by destruct (ActiveNav.split sep r).
Qed.

Lemma split_no_sep (sep : N) (s : list N) :
  sep ∉ s → ActiveNav.split sep s = [s].
Proof.
  induction s as [|c r IH]; [done|]. intros [Hc Hr]%not_elem_of_cons.
  simpl. apply not_eq_sym, N.eqb_neq in Hc. rewrite Hc. by rewrite IH.
Qed.

Lemma split_singleton (sep : N) (s x : list N) :
  ActiveNav.split sep s = [x] → x = s ∧ sep ∉ s.
Proof.
  revert x. induction s as [|c r IH]; intros x; simpl.
  - intros [= <-]. split; [done | apply not_elem_of_nil].
  - destruct (c =? sep)%N eqn:Ec.
    + intros [= _ H]. by apply split_nonempty in H.
    + apply N.eqb_neq in Ec.
      destruct (ActiveNav.split sep r) as [|y ys] eqn:Es;
        [by apply split_nonempty in Es|].
      intros [= <- ->]. destruct (IH y eq_refl) as [-> Hr].
      split; [done|]. rewrite not_elem_of_cons. by split.
Qed.

(** The last piece of [split] is the part of the string after its last
    separator. *)
Lemma split_last (sep : N) (s : list N) :
  ∃ dir seg, last (ActiveNav.split sep s) = Some seg ∧ s = dir ++ seg ∧
             (sep ∉ seg) ∧ (dir = [] ∨ last dir = Some sep).
Proof.
  induction s as [|c r (dir & seg & Hlast & Hr & Hseg & Hdir)].
  - exists [], []. split_and!; try done; [apply not_elem_of_nil | by left].
  - simpl. destruct (c =? sep)%N eqn:Ec.
    + apply N.eqb_eq in Ec. subst c. exists (sep :: dir), seg.
      split_and!; try done.
      * rewrite last_cons, Hlast. done.
      * by rewrite Hr.
      * right. rewrite last_cons. by destruct Hdir as [Hd | Hd]; rewrite Hd.
    + apply N.eqb_neq in Ec.
      destruct (ActiveNav.split sep r) as [|x [|y ys]] eqn:Es.
      * by apply split_nonempty in Es.
      * destruct (split_singleton sep r x Es) as [Hx Hno]. subst x.
        exists [], (c :: r). split_and!; try done; [|by left].
        rewrite not_elem_of_cons. by split.
      * exists (c :: dir), seg. split_and!; try done.
        -- by rewrite Hr.
        -- right. rewrite last_cons. destruct Hdir as [Hd | Hd]; [|by rewrite Hd].
           exfalso. subst dir. simpl in Hr. subst r.
           by rewrite (split_no_sep sep seg Hseg) in Es.
Qed.

(** X28: [ActiveNav.init] highlights exactly the links whose [href] is, code unit
    for code unit, the file name of the current path: the part after its
    last ["/"], or ["index.html"] when that part is empty.  Every other link
    keeps its classes, and a highlighted one only gains the two active
    classes. *)
Theorem activeNav_highlights (pathname : list N) (links : list ActiveNav.Link) :
  ∃ dir file,
    pathname = dir ++ file ∧ (47%N ∉ file) ∧
    (dir = [] ∨ last dir = Some 47%N) ∧
    ActiveNav.init pathname links =
    (λ link,
       if bool_decide (ActiveNav.href link =
                       Some (if bool_decide (file = [])
                             then ContactForm.units "index.html" else file))
       then ActiveNav.mkLink
              (ActiveNav.href link)
              ({["nav__link--active"; "mobile-nav__link--active"]}
               ∪ ActiveNav.classList link)
       else link) <$> links.
Proof.
  destruct (split_last 47 pathname) as (dir & file & Hlast & -> & Hfile & Hdir).
  exists dir, file. split_and!; try done.
  unfold ActiveNav.init. apply list_fmap_ext. intros _ link _.
  unfold ActiveNav.highlight, ActiveNav.currentPage, ActiveNav.sameString.
  rewrite Hlast. destruct file as [|c file]; cbn [ActiveNav.or_else].
  - rewrite (bool_decide_eq_false_2 (ContactForm.units "index.html" = [])) by done.
    by rewrite andb_false_l, orb_false_r.
  - rewrite (bool_decide_eq_false_2 (c :: file = [])) by done.
    by rewrite andb_false_l, orb_false_r.
Qed.
